(** * Reading list and cover fetcher: a shallow embedding

    The repository has two programs over one export file:
    - [script.js], the page script: [processBooks] turns the export into the
      finished and saved lists, [extractAllISBNs] and [cleanISBN] build each
      book's ISBN list;
    - the cover fetcher (run with node): [loadBooks] reads the export,
      [main] resolves a cover and an author per book through
      [tryOpenLibrary], [tryGoogleBooks], [tryOpenLibraryTitleSearch] and
      [tryGetAuthorOnly], and writes [covers.json].

    JavaScript values are embedded as the inductive [value]; a [throw] is
    the [Throw] outcome; the file system and the log of network requests are
    an explicit [world] threaded through a state-and-exception monad. *)

From Stdlib Require Import ZArith Ascii String List Bool Lia Sorted.
From stdpp Require Import base option list strings pretty gmap fin_maps.

Set Warnings "-register-all".
Open Scope string_scope.
Open Scope list_scope.
Open Scope Z_scope.

(** ** JavaScript values *)

(** The values that [JSON.parse] produces, plus [undefined] for absent
    properties.  Numbers are the safe integers, of absolute value up to
    2^53 (identifiers, ISBNs written as numbers, cover ids); larger
    numbers, fractional numbers and NaN are not represented.  Strings are
    sequences of bytes (UTF-8).  An object is the list of its own
    properties; none of them is a function. *)
Inductive value : Type :=
| VUndef
| VNull
| VBool (b : bool)
| VNum (n : Z)
| VStr (s : string)
| VArr (items : list value)
| VObj (fields : list (string * value)).

(** [!v] is false. *)
Definition truthy (v : value) : bool :=
  match v with
  | VUndef | VNull => false
  | VBool b => b
  | VNum n => negb (n =? 0)
  | VStr s => negb (String.eqb s "")
  | VArr _ | VObj _ => true
  end.

(** [a || b] and [a && b] on values. *)
Definition js_or (a b : value) : value := if truthy a then a else b.
Definition js_and (a b : value) : value := if truthy a then b else a.

(** [v === "s"] for a string literal. *)
Definition is_str (v : value) (s : string) : bool :=
  match v with VStr t => String.eqb t s | _ => false end.

(** [v === null]. *)
Definition is_null (v : value) : bool :=
  match v with VNull => true | _ => false end.

Definition join_with (sep : string) (l : list string) : string :=
  match l with
  | [] => ""
  | x :: xs => fold_left (fun acc y => acc +:+ sep +:+ y) xs x
  end.

(** The string that [String(v)] returns, where it returns (see
    [String_of] below); also the conversion of a template literal and of
    a property key.  Inside [Array.prototype.join], [null] and
    [undefined] print as the empty string. *)
Fixpoint ToString (v : value) : string :=
  match v with
  | VUndef => "undefined"
  | VNull => "null"
  | VBool true => "true"
  | VBool false => "false"
  | VNum n => pretty n
  | VStr s => s
  | VArr items =>
      join_with ","
        ((fix elems (l : list value) : list string :=
            match l with
            | [] => []
            | VUndef :: r => "" :: elems r
            | VNull :: r => "" :: elems r
            | x :: r => ToString x :: elems r
            end) items)
  | VObj _ => "[object Object]"
  end.

(** Where the conversion to a string throws: an object with an own
    property [toString] has no callable [toString] (its own one is data,
    and the [valueOf] it inherits returns the object), and the [join] of
    an array converts its elements. *)
Fixpoint String_throws (v : value) : bool :=
  match v with
  | VObj fields => existsb (fun kv => String.eqb (fst kv) "toString") fields
  | VArr items => existsb String_throws items
  | _ => false
  end.

Fixpoint assoc (k : string) (fields : list (string * value)) : value :=
  match fields with
  | [] => VUndef
  | (k', v) :: r => if String.eqb k k' then v else assoc k r
  end.

(** ** Outcomes: a value or a thrown exception *)

Inductive error : Type :=
| TypeError      (* property read on null or undefined, value not iterable, not a function,
                    no conversion to a string *)
| SyntaxError    (* JSON.parse *)
| RequestError   (* fetchUrl rejected: network error or a status other than 200 *)
| ENOENT.        (* readFileSync on a missing file *)

Inductive outcome (A : Type) : Type :=
| Ok (a : A)
| Throw (e : error).
Arguments Ok {A} a.
Arguments Throw {A} e.

Definition is_Ok {A} (o : outcome A) : bool :=
  match o with Ok _ => true | Throw _ => false end.

Global Instance outcome_ret : MRet outcome := fun _ a => Ok a.
Global Instance outcome_bind : MBind outcome := fun _ _ f o =>
  match o with Ok a => f a | Throw e => Throw e end.

(** [String(v)], a template literal over [v], and [v] as a property key:
    a [TypeError] where the conversion throws. *)
Definition String_of (v : value) : outcome string :=
  if String_throws v then Throw TypeError else Ok (ToString v).

(** The index an array-index property key denotes: the canonical decimal
    numerals. *)
Definition index_of_key (k : string) : option nat :=
  let n := fold_left (fun acc c => 10 * acc + (Z.of_N (N_of_ascii c) - 48))
             (list_ascii_of_string k) 0 in
  if String.eqb (pretty n) k then Some (Z.to_nat n) else None.

(** [v.k] and [v[k]]: a [TypeError] on [null] and [undefined]; the field
    of an object; the element or the length of an array; a character or
    the length of a string; [undefined] otherwise.  The programs read a
    fixed set of names from parsed JSON ([type], [books], [title],
    [editions], [isbn], [docs], [cover_i], [path], [author], ...) and
    book identifiers as keys of the covers map; what a prototype would
    supply under another name (a method) has none of these properties and
    reads here as [undefined]. *)
Definition prop (v : value) (k : string) : outcome value :=
  match v with
  | VUndef | VNull => Throw TypeError
  | VObj fields => Ok (assoc k fields)
  | VArr items =>
      match index_of_key k with
      | Some i => Ok (nth i items VUndef)
      | None => Ok (if String.eqb k "length" then VNum (Z.of_nat (length items)) else VUndef)
      end
  | VStr s =>
      match index_of_key k with
      | Some i => Ok (match drop i (list_ascii_of_string s) with
                      | c :: _ => VStr (String c "")
                      | [] => VUndef
                      end)
      | None => Ok (if String.eqb k "length" then VNum (Z.of_nat (String.length s)) else VUndef)
      end
  | _ => Ok VUndef
  end.

(** [v?.k] and [v?.[k]]; also [v.k] and [v[k]] where [v] is known to be
    truthy. *)
Definition prop_opt (v : value) (k : string) : value :=
  match prop v k with Ok x => x | Throw _ => VUndef end.

(** The values a [for (const x of v)] loop visits: the elements of an
    array, the characters of a string, a [TypeError] otherwise. *)
Definition iterate (v : value) : outcome (list value) :=
  match v with
  | VArr items => Ok items
  | VStr s => Ok (map (fun c => VStr (String c "")) (list_ascii_of_string s))
  | _ => Throw TypeError
  end.

(** [for (const x of l) body], the loop state passed along. *)
Fixpoint for_of {A S : Type} (l : list A) (body : A -> S -> outcome S) (s : S)
  : outcome S :=
  match l with
  | [] => Ok s
  | x :: r => s' ← body x s; for_of r body s'
  end.

(** ** The regular expression of both programs *)

Definition is_digit (c : ascii) : bool :=
  let n := N_of_ascii c in ((48 <=? n) && (n <=? 57))%N.

(** The characters the class [[^0-9X]] with the [i] flag does not match:
    digits, and the letter X in either case. *)
Definition isbn_char (c : ascii) : bool :=
  is_digit c || Ascii.eqb c "X" || Ascii.eqb c "x".

Fixpoint string_filter (p : ascii -> bool) (s : string) : string :=
  match s with
  | EmptyString => EmptyString
  | String c r => if p c then String c (string_filter p r) else string_filter p r
  end.

(** ** script.js, the page script *)

Module Script.

(** [String(isbn).replace(/[^0-9X]/gi, '')]: the string that
    [cleanISBN(isbn)] returns, where it returns. *)
Definition cleanISBN (isbn : value) : string :=
  string_filter isbn_char (ToString isbn).

(** The call [cleanISBN(isbn)]: it throws where [String(isbn)] does. *)
Definition cleanISBN_call (isbn : value) : outcome string :=
  s ← String_of isbn; mret (string_filter isbn_char s).

(** [isbns.includes(x)] *)
Definition includes (isbns : list string) (x : string) : bool :=
  bool_decide (x ∈ isbns).

(** [(edition.format === t || edition.type === t) && edition.isbn],
    as a condition. *)
Definition tagged_with_isbn (t : string) (edition : value) : outcome bool :=
  format ← prop edition "format";
  if is_str format t then isbn ← prop edition "isbn"; mret (truthy isbn)
  else
    type ← prop edition "type";
    if is_str type t then isbn ← prop edition "isbn"; mret (truthy isbn)
    else mret false.

Definition push_clean (edition : value) (isbns : list string)
  : outcome (list string) :=
  isbn ← prop edition "isbn";
  cleaned ← cleanISBN_call isbn;
  mret (isbns ++ [cleaned]).

Definition push_clean_new (edition : value) (isbns : list string)
  : outcome (list string) :=
  isbn ← prop edition "isbn";
  cleaned ← cleanISBN_call isbn;
  mret (if includes isbns cleaned then isbns else isbns ++ [cleaned]).

Definition extractAllISBNs (editions : value) : outcome (list string) :=
  match editions with
  | VArr eds =>
      (* first the eBook ISBNs *)
      isbns ← for_of eds (fun edition isbns =>
                 c ← tagged_with_isbn "eBook" edition;
                 if c : bool then push_clean edition isbns else mret isbns) [];
      (* then the audioBook ISBNs *)
      isbns ← for_of eds (fun edition isbns =>
                 c ← tagged_with_isbn "audioBook" edition;
                 if c : bool then push_clean_new edition isbns else mret isbns) isbns;
      (* finally any other edition *)
      for_of eds (fun edition isbns =>
                 isbn ← prop edition "isbn";
                 if truthy isbn then push_clean_new edition isbns else mret isbns) isbns
  | _ => Ok []
  end.

(** [extractISBN] *)
Definition extractISBN (editions : value) : outcome (option string) :=
  isbns ← extractAllISBNs editions; mret (head isbns).

(** The records of [state.finishedBooks] and [state.savedBooks]; [date] is
    the [finishedDate] property of a finished book and the [date] property
    of a saved one; [year] is [None] for [null]. *)
Record bookRecord : Type := {
  title : value;
  bookId : value;
  isbns : list string;
  date : value;
  year : option Z
}.

Section WithDate.

(** The host's [Date]: [Date_new v] is the time value of [new Date(v)] in
    milliseconds, [None] for an invalid date ([getTime()] is NaN);
    [getFullYear t] is the year of the time value [t] in local time. *)
Variable Date_new : value -> option Z.
Variable getFullYear : Z -> Z.

Definition extractYear (dateString : value) : option Z :=
  if truthy dateString then
    match Date_new dateString with
    | None => None
    | Some t => Some (getFullYear t)
    end
  else None.

(** [data.find(item => item.type === type)] *)
Fixpoint find_type (type : string) (items : list value) : outcome (option value) :=
  match items with
  | [] => Ok None
  | item :: r =>
      t ← prop item "type";
      if is_str t type then Ok (Some item) else find_type type r
  end.

Definition findCategory (data : value) (type : string) : outcome value :=
  match data with
  | VArr items =>
      category ← find_type type items;
      match category with
      | Some c => prop c "books"
      | None => Ok (VArr [])
      end
  | _ =>
      (* fallback for the flat structure *)
      v ← prop data type; mret (js_or v (VArr []))
  end.

(** [raw.map(f)]: a [TypeError] unless [raw] is an array. *)
Definition array_map {B} (raw : value) (f : value -> outcome B) : outcome (list B) :=
  match raw with
  | VArr items => for_of items (fun x acc => y ← f x; mret (acc ++ [y])) []
  | _ => Throw TypeError
  end.

(** [book.year && book.title], as a condition. *)
Definition has_year_and_title (book : bookRecord) : bool :=
  match year book with
  | Some y => negb (y =? 0) && truthy (title book)
  | None => false
  end.

(** [new Date(b.date) - new Date(a.date)], the comparator of both sorts;
    a NaN difference counts as [+0], as [Array.prototype.sort] takes it. *)
Definition by_date_desc (a b : bookRecord) : Z :=
  match Date_new (date b), Date_new (date a) with
  | Some tb, Some ta => tb - ta
  | _, _ => 0
  end.

(** [Array.prototype.sort] is stable and, with a comparator that orders
    the elements consistently, returns the one stable ordering: an
    insertion sort, in which an element goes before the first element it
    does not sort after. *)
Fixpoint sort_insert {A} (cmp : A -> A -> Z) (x : A) (l : list A) : list A :=
  match l with
  | [] => [x]
  | y :: r => if cmp x y <=? 0 then x :: y :: r else y :: sort_insert cmp x r
  end.

Definition array_sort {A} (cmp : A -> A -> Z) (l : list A) : list A :=
  foldr (sort_insert cmp) [] l.

Definition finished_record (book : value) : outcome bookRecord :=
  t ← prop book "title";
  i ← prop book "bookId";
  e ← prop book "editions";
  l ← extractAllISBNs e;
  d ← prop book "finishedDate";
  mret {| title := t; bookId := i; isbns := l; date := d; year := extractYear d |}.

Definition saved_record (book : value) : outcome bookRecord :=
  t ← prop book "title";
  i1 ← prop book "bookid";
  i2 ← prop book "bookId";
  e ← prop book "editions";
  l ← extractAllISBNs e;
  d ← prop book "date";
  mret {| title := t; bookId := js_or i1 i2; isbns := l; date := d;
          year := extractYear d |}.

(** The pair [(state.finishedBooks, state.savedBooks)] that [processBooks]
    leaves, or the exception it throws. *)
Definition processBooks (data : value)
  : outcome (list bookRecord * list bookRecord) :=
  finishedRaw ← findCategory data "myfinishedbooks";
  savedRaw ← findCategory data "mysavedbooks";
  finished ← array_map finishedRaw finished_record;
  let finishedBooks := array_sort by_date_desc (filter (fun b => has_year_and_title b = true) finished) in
  saved ← array_map savedRaw saved_record;
  let savedBooks := array_sort by_date_desc (filter (fun b => has_year_and_title b = true) saved) in
  mret (finishedBooks, savedBooks).

End WithDate.


(** The objects [{ year, books }] that [groupByYear] returns; [group_year]
    is the [year] property, [None] when [parseInt] gives NaN, and
    [group_books] the [books] property. *)
Record yearGroup : Type := {
  group_year : option Z;
  group_books : list bookRecord
}.

(** The comparator [(a, b) => b - a] on property keys: the key of a year
    converts back to its number, the key of [null] to NaN, and a NaN
    difference counts as [+0]. *)
Definition by_number_desc (a b : option Z) : Z :=
  match b, a with
  | Some nb, Some na => nb - na
  | _, _ => 0
  end.

(** The order of [Object.keys]: the keys that are array indices (here the
    years from 0 to 4294967294) ascending, then the other keys in the order
    of their creation. *)
Definition is_array_index (y : option Z) : bool :=
  match y with
  | Some n => (0 <=? n) && (n <? 4294967295)
  | None => false
  end.

Definition Object_keys (created : list (option Z)) : list (option Z) :=
  array_sort (fun a b => by_number_desc b a) (List.filter is_array_index created)
  ++ List.filter (fun y => negb (is_array_index y)) created.

(** The body of the [forEach] of [groupByYear].  The object [groups] is
    the list of its properties in the order of their creation; the
    property key [String(book.year)] is represented by the year itself
    ([None] for the key of [null]), as distinct years have distinct keys. *)
Definition push_group (groups : list (option Z * list bookRecord)) (book : bookRecord)
  : list (option Z * list bookRecord) :=
  if existsb (fun g => bool_decide (g.1 = year book)) groups
  then map (fun g => if bool_decide (g.1 = year book) then (g.1, g.2 ++ [book]) else g) groups
  else groups ++ [(year book, [book])].

(** [groups[year]] for a key of [groups]. *)
Definition group_of (groups : list (option Z * list bookRecord)) (y : option Z)
  : list bookRecord :=
  match List.find (fun g => bool_decide (g.1 = y)) groups with
  | Some g => g.2
  | None => []
  end.

Definition groupByYear (books : list bookRecord) : list yearGroup :=
  let groups := fold_left push_group books [] in
  (* sort years descending *)
  map (fun y => {| group_year := y; group_books := group_of groups y |})
    (array_sort by_number_desc (Object_keys (map fst groups))).

(** [[...new Set(l)]]: the distinct values in the order of their first
    occurrence. *)
Definition distinct (l : list (option Z)) : list (option Z) :=
  fold_left (fun seen y => if bool_decide (y ∈ seen) then seen else seen ++ [y]) l [].

(** The object that [calculateStats] returns. *)
Record stats : Type := {
  totalBooks : nat;
  thisYearBooks : nat;
  yearsReading : nat;
  currentYear : Z
}.

(** [calculateStats] over [state.finishedBooks]; [thisYear] is what
    [new Date().getFullYear()] returns when it is called. *)
Definition calculateStats (finishedBooks : list bookRecord) (thisYear : Z) : stats :=
  {| totalBooks := length finishedBooks;
     thisYearBooks :=
       length (List.filter (fun b => bool_decide (year b = Some thisYear)) finishedBooks);
     yearsReading := length (distinct (map year finishedBooks));
     currentYear := thisYear |}.

(** The first binding of [renderBookCard]: [coversMap[book.bookId] || {}],
    over the covers map that [init] loaded. *)
Definition coverInfo (coversMap : value) (book : bookRecord) : outcome value :=
  key ← String_of (bookId book);
  v ← prop coversMap key;
  mret (js_or v (VObj [])).

End Script.

(** ** The cover fetcher *)

(** *** String helpers of the fetcher *)

(** [s.split(sep)[0]]: the part of [s] before the first [sep]. *)
Fixpoint split0 (sep : ascii) (s : string) : string :=
  match s with
  | EmptyString => EmptyString
  | String c r => if Ascii.eqb c sep then EmptyString else String c (split0 sep r)
  end.

Fixpoint string_map (f : ascii -> ascii) (s : string) : string :=
  match s with
  | EmptyString => EmptyString
  | String c r => String (f c) (string_map f r)
  end.

Definition in_range (lo hi : N) (c : ascii) : bool :=
  let n := N_of_ascii c in ((lo <=? n) && (n <=? hi))%N.

(** [\w] and [\s] on bytes: word characters, and the ASCII white space. *)
Definition is_word (c : ascii) : bool :=
  in_range 65 90 c || in_range 97 122 c || is_digit c || Ascii.eqb c "_".
Definition is_space (c : ascii) : bool :=
  in_range 9 13 c || Ascii.eqb c " ".

Fixpoint trim_start (s : string) : string :=
  match s with
  | String c r => if is_space c then trim_start r else s
  | EmptyString => EmptyString
  end.

Definition string_rev (s : string) : string :=
  string_of_list_ascii (rev (list_ascii_of_string s)).

(** [s.trim()] *)
Definition trim (s : string) : string :=
  string_rev (trim_start (string_rev (trim_start s))).

(** [s.replace(pat, rep)] for a string pattern: the first occurrence. *)
Fixpoint replace_first (pat rep s : string) : string :=
  if String.prefix pat s then rep +:+ substring (String.length pat) (String.length s) s
  else match s with
       | EmptyString => EmptyString
       | String c r => String c (replace_first pat rep r)
       end.

Definition hex_digit (n : N) : ascii :=
  ascii_of_N (if (n <? 10)%N then 48 + n else 55 + n)%N.

(** [encodeURIComponent] on UTF-8 bytes: the unreserved characters stay,
    every other byte is percent-encoded. *)
Fixpoint encodeURIComponent (s : string) : string :=
  match s with
  | EmptyString => EmptyString
  | String c r =>
      if is_word c || existsb (Ascii.eqb c) (list_ascii_of_string "-.!~*'()")
      then String c (encodeURIComponent r)
      else String "%" (String (hex_digit (N_of_ascii c / 16))
                        (String (hex_digit (N_of_ascii c mod 16)) (encodeURIComponent r)))
  end.

(** A method call [v.split(...)] or [v.replace(...)]: the receiver has to
    be a string, any other value has no such method. *)
Definition as_string (v : value) : outcome string :=
  match v with VStr s => Ok s | _ => Throw TypeError end.

(** *** The world: files and the network *)

(** [files] maps a path to the bytes of the file there.  Directories are
    not represented, and the file system is one that serves every read of
    a present file and accepts every write: a run in which
    [fs.writeFileSync] throws is not a run of this model.
    [requests] logs the URL of every call of [fetchUrl] by a lookup,
    latest first; the calls by which [fetchUrl] follows a redirect are
    part of the answer of the network and are not logged. *)
Record world : Type := {
  files : gmap string string;
  requests : list string
}.

(** Computations of the fetcher: they read and change the world and end
    with a value or a thrown exception (a rejected promise). *)
Definition M (A : Type) : Type := world -> outcome A * world.

Global Instance M_ret : MRet M := fun _ a w => (Ok a, w).
Global Instance M_bind : MBind M := fun _ _ f m w =>
  match m w with
  | (Ok a, w') => f a w'
  | (Throw e, w') => (Throw e, w')
  end.

Definition lift {A} (o : outcome A) : M A := fun w => (o, w).

(** [try { body } catch (e) { handler }] *)
Definition try_catch {A} (body : M A) (handler : M A) : M A := fun w =>
  match body w with
  | (Ok a, w') => (Ok a, w')
  | (Throw _, w') => handler w'
  end.

Definition existsSync (path : string) : M bool := fun w =>
  (Ok (bool_decide (is_Some (files w !! path))), w).

Definition readFileSync (path : string) : M string := fun w =>
  match files w !! path with
  | Some text => (Ok text, w)
  | None => (Throw ENOENT, w)
  end.

Definition writeFileSync (path data : string) : M unit := fun w =>
  (Ok tt, {| files := <[path := data]> (files w); requests := requests w |}).

Module Fetcher.

(* Configuration *)
Definition BOOKBEAT_FILE : string := "BookBeat.json".
Definition COVERS_DIR : string := "covers".
Definition COVERS_MAP_FILE : string := "covers.json".

(** The entries of [books] in [loadBooks]. *)
Record book : Type := {
  id : value;
  title : value;
  isbns : list string
}.

(** What a successful cover attempt returns. *)
Record cover : Type := {
  buffer : string;
  author : value
}.

(** [seen.has(x)] compares with SameValueZero; two objects that
    [JSON.parse] built are never the same object. *)
Definition same_value_zero (a b : value) : bool :=
  match a, b with
  | VUndef, VUndef | VNull, VNull => true
  | VBool x, VBool y => Bool.eqb x y
  | VNum x, VNum y => x =? y
  | VStr x, VStr y => String.eqb x y
  | _, _ => false
  end.

(** Remove duplicates by id: the [filter] over the [seen] set. *)
Fixpoint remove_duplicates (seen : list value) (books : list book) : list book :=
  match books with
  | [] => []
  | b :: r =>
      if existsb (same_value_zero (id b)) seen then remove_duplicates seen r
      else b :: remove_duplicates (id b :: seen) r
  end.

(** The inner loop of [loadBooks] over [book.editions]. *)
Definition edition_isbns (editions : value) : outcome (list string) :=
  eds ← iterate editions;
  for_of eds (fun edition isbns =>
    isbn ← prop edition "isbn";
    if truthy isbn
    then s ← String_of isbn; mret (isbns ++ [string_filter isbn_char s])
    else mret isbns) [].

(** The loop of [loadBooks] over [category.books || []]. *)
Definition category_books (category : value) (books : list book)
  : outcome (list book) :=
  raw ← prop category "books";
  entries ← iterate (js_or raw (VArr []));
  for_of entries (fun b books =>
    t ← prop b "title";
    e ← prop b "editions";
    if truthy t && truthy e then
      isbns ← edition_isbns e;
      if (0 <? length isbns)%nat then
        i1 ← prop b "bookId";
        i2 ← prop b "bookid";
        mret (books ++ [{| id := js_or i1 i2; title := t; isbns := isbns |}])
      else mret books
    else mret books) books.

(** [loadBooks] after [JSON.parse]: the loop over [data] and the removal
    of duplicates. *)
Definition books_of_data (data : value) : outcome (list book) :=
  categories ← iterate data;
  books ← for_of categories (fun category books =>
             type ← prop category "type";
             if is_str type "myfinishedbooks" || is_str type "mysavedbooks"
             then category_books category books
             else mret books) [];
  mret (remove_duplicates [] books).

Section WithHost.

(** The host: [JSON_parse text] is [None] when [JSON.parse] throws;
    [path_join] is node's [path.join]. *)
Variable JSON_parse : string -> option value.
Variable JSON_stringify : value -> string.
Variable path_join : string -> string -> string.

(** The network: [network i url] is how a lookup's call [fetchUrl(url)]
    settles when the lookups have called [fetchUrl] [i] times before: the
    body of the response with status 200 at the end of the redirects that
    [fetchUrl] follows by calling itself, or [None] when the promise
    rejects.  A call that never settles is not represented. *)
Variable network : nat -> string -> option string.

Definition parse (text : string) : M value :=
  lift (match JSON_parse text with Some v => Ok v | None => Throw SyntaxError end).

Definition loadBooks : M (list book) :=
  text ← readFileSync BOOKBEAT_FILE;
  data ← parse text;
  lift (books_of_data data).

Definition fetchUrl (url : string) : M string := fun w =>
  let w' := {| files := files w; requests := url :: requests w |} in
  match network (length (requests w)) url with
  | Some body => (Ok body, w')
  | None => (Throw RequestError, w')
  end.

Definition fetchJson (url : string) : M value :=
  buffer ← fetchUrl url; parse buffer.

(** [x?.[0] || null] *)
Definition first_or_null (x : value) : value :=
  js_or (prop_opt x "0") VNull.

Definition tryOpenLibrary (isbn : string) : M (option cover) :=
  try_catch
    (searchData ← fetchJson ("https://openlibrary.org/search.json?isbn=" +:+ isbn +:+ "&limit=1");
     docs ← lift (prop searchData "docs");
     let doc := prop_opt docs "0" in
     let coverId := prop_opt doc "cover_i" in
     (* also try the direct ISBN cover URL *)
     let direct : M (option cover) :=
       directData ← fetchUrl ("https://covers.openlibrary.org/b/isbn/" +:+ isbn +:+ "-L.jpg");
       if (1000 <? String.length directData)%nat
       then mret (Some {| buffer := directData; author := VNull |})
       else mret None in
     if truthy docs && truthy doc && truthy coverId then
       coverIdText ← lift (String_of coverId);
       imageData ← fetchUrl ("https://covers.openlibrary.org/b/id/" +:+ coverIdText +:+ "-L.jpg");
       (* check it's not a tiny placeholder *)
       if (1000 <? String.length imageData)%nat
       then mret (Some {| buffer := imageData;
                          author := first_or_null (prop_opt doc "author_name") |})
       else direct
     else direct)
    (mret None).

Definition tryGoogleBooks (isbn : string) : M (option cover) :=
  try_catch
    (searchData ← fetchJson ("https://www.googleapis.com/books/v1/volumes?q=isbn:" +:+ isbn);
     items ← lift (prop searchData "items");
     let item := prop_opt items "0" in
     let volumeInfo := prop_opt item "volumeInfo" in
     let imageLinks := prop_opt volumeInfo "imageLinks" in
     if truthy items && truthy item && truthy imageLinks then
       (* prefer larger images *)
       link ← lift (as_string
                 (js_or (prop_opt imageLinks "large")
                   (js_or (prop_opt imageLinks "medium")
                     (js_or (prop_opt imageLinks "thumbnail")
                            (prop_opt imageLinks "smallThumbnail")))));
       let imageUrl := replace_first "&edge=curl" "" (replace_first "http://" "https://" link) in
       imageData ← fetchUrl imageUrl;
       if (2000 <? String.length imageData)%nat
       then mret (Some {| buffer := imageData;
                          author := first_or_null (prop_opt volumeInfo "authors") |})
       else mret None
     else mret None)
    (mret None).

(** [title.split(':')[0].split('.')[0].replace(/[^\w\s]/g, ' ').trim()] *)
Definition searchTitle (title : value) : outcome string :=
  t ← as_string title;
  mret (trim (string_map (fun c => if is_word c || is_space c then c else " "%char)
                (split0 "." (split0 ":" t)))).

(** [docs?.find(doc => doc.cover_i)] *)
Fixpoint find_with_cover (docs : list value) : outcome value :=
  match docs with
  | [] => Ok VUndef
  | doc :: r =>
      c ← prop doc "cover_i";
      if truthy c then Ok doc else find_with_cover r
  end.

Definition tryOpenLibraryTitleSearch (title : value) : M (option cover) :=
  try_catch
    (t ← lift (searchTitle title);
     searchData ← fetchJson ("https://openlibrary.org/search.json?title="
                             +:+ encodeURIComponent t +:+ "&limit=5");
     docs ← lift (prop searchData "docs");
     withCover ← lift (match docs with
                       | VUndef | VNull => Ok VUndef
                       | VArr l => find_with_cover l
                       | _ => Throw TypeError
                       end);
     let coverId := prop_opt withCover "cover_i" in
     if truthy withCover && truthy coverId then
       coverIdText ← lift (String_of coverId);
       imageData ← fetchUrl ("https://covers.openlibrary.org/b/id/" +:+ coverIdText +:+ "-L.jpg");
       if (1000 <? String.length imageData)%nat
       then mret (Some {| buffer := imageData;
                          author := first_or_null (prop_opt withCover "author_name") |})
       else mret None
     else mret None)
    (mret None).

(** One iteration of the first loop of [tryGetAuthorOnly]: [Some author]
    when the loop returns from the function. *)
Definition googleAuthor (isbn : string) : M (option value) :=
  try_catch
    (searchData ← fetchJson ("https://www.googleapis.com/books/v1/volumes?q=isbn:" +:+ isbn);
     items ← lift (prop searchData "items");
     let item := prop_opt items "0" in
     let author := prop_opt (prop_opt (prop_opt item "volumeInfo") "authors") "0" in
     if truthy items && truthy item && truthy author
     then mret (Some author)
     else mret None)
    (mret None).

(** [for (const isbn of isbns) { result = await attempt(isbn); if (result) break; }] *)
Fixpoint try_each {A} (attempt : string -> M (option A)) (isbns : list string)
  : M (option A) :=
  match isbns with
  | [] => mret None
  | isbn :: r =>
      result ← attempt isbn;
      match result with
      | Some x => mret (Some x)
      | None => try_each attempt r
      end
  end.

Definition tryGetAuthorOnly (isbns : list string) (title : value) : M value :=
  (* Google Books first *)
  found ← try_each googleAuthor isbns;
  match found with
  | Some author => mret author
  | None =>
      (* then the Open Library title search *)
      try_catch
        (t ← lift (searchTitle title);
         searchData ← fetchJson ("https://openlibrary.org/search.json?title="
                                 +:+ encodeURIComponent t +:+ "&limit=1");
         docs ← lift (prop searchData "docs");
         let doc := prop_opt docs "0" in
         if truthy docs && truthy doc
         then mret (first_or_null (prop_opt doc "author_name"))
         else mret VNull)
        (mret VNull)
  end.

(** [{ path: p, author: a }] *)
Definition entry (p a : value) : value := VObj [("path", p); ("author", a)].

(** [coversMap[key] = e] on the object under construction, whose
    prototype is [Object.prototype] at first: the key [__proto__] names
    the accessor of the prototype, so the assignment replaces the
    prototype by [e] and creates no property; under every other key it
    creates or overwrites the property.  The map holds the own properties
    only.  The prototype is not represented, which is exact unless a
    prototype installed this way has a property [__proto__] of its own
    and a further book has that key; the statements about the content of
    the map are for books with other keys, or for one such book. *)
Definition set_property (key : string) (e : value) (coversMap : gmap string value)
  : gmap string value :=
  if String.eqb key "__proto__" then coversMap else <[key := e]> coversMap.

(** [console.log] of a template literal over [v]: the output is left
    out, the conversion of [v] is not. *)
Definition console_log (v : value) : M unit :=
  lift (_ ← String_of v; mret tt).

(** The body of the loop of [main] for one book; [coversMap] is the
    object under construction, as the map of its own properties.  Each
    of the three branches starts with a [console.log] of the title.  The
    two counters and the delay between books are left out. *)
Definition resolveBook (existingCoversMap : value) (b : book)
    (coversMap : gmap string value) : M (gmap string value) :=
  key ← lift (String_of (id b));
  let coverPath := path_join COVERS_DIR (key +:+ ".jpg") in
  existingEntry ← lift (prop existingCoversMap key);
  downloaded ← existsSync coverPath;
  _ ← console_log (title b);
  if downloaded : bool then
    (* already downloaded *)
    mret (set_property key
            (entry (VStr ("covers/" +:+ key +:+ ".jpg"))
                   (js_or (prop_opt existingEntry "author") VNull))
            coversMap)
  else if truthy existingEntry && is_null (prop_opt existingEntry "path")
          && truthy (prop_opt existingEntry "author") then
    (* no cover, has author *)
    mret (set_property key existingEntry coversMap)
  else
    result ← try_each tryOpenLibrary (isbns b);
    result ← match result with
             | Some r => mret (Some r)
             | None => try_each tryGoogleBooks (isbns b)
             end;
    result ← match result with
             | Some r => mret (Some r)
             | None => tryOpenLibraryTitleSearch (title b)
             end;
    match result with
    | Some r =>
        _ ← writeFileSync coverPath (buffer r);
        mret (set_property key
                (entry (VStr ("covers/" +:+ key +:+ ".jpg")) (author r)) coversMap)
    | None =>
        a ← tryGetAuthorOnly (isbns b) (title b);
        _ ← (if truthy a then console_log a else mret tt);
        mret (set_property key (entry VNull a) coversMap)
    end.

(** The loop of [main] over [books]. *)
Fixpoint resolveAll (existingCoversMap : value) (books : list book)
    (coversMap : gmap string value) : M (gmap string value) :=
  match books with
  | [] => mret coversMap
  | b :: r =>
      coversMap ← resolveBook existingCoversMap b coversMap;
      resolveAll existingCoversMap r coversMap
  end.

(** The covers map as the object that [JSON.stringify] receives. *)
Definition object_of (coversMap : gmap string value) : value :=
  VObj (map_to_list coversMap).

(** Load the existing [covers.json], [{}] when absent or unreadable. *)
Definition loadExisting : M value :=
  present ← existsSync COVERS_MAP_FILE;
  if present : bool
  then try_catch (text ← readFileSync COVERS_MAP_FILE; parse text) (mret (VObj []))
  else mret (VObj []).

Definition main : M unit :=
  books ← loadBooks;
  existingCoversMap ← loadExisting;
  coversMap ← resolveAll existingCoversMap books ∅;
  writeFileSync COVERS_MAP_FILE (JSON_stringify (object_of coversMap)).

End WithHost.

End Fetcher.

(** ** A sample host

    An executable host to run the programs on concrete inputs: JSON text
    with integers and the two-character escapes, POSIX paths without
    normalisation, and [Date] on the date-only form [YYYY-MM-DD] in UTC. *)

Module Sample.

Definition path_join (dir name : string) : string := dir +:+ "/" +:+ name.

(** *** JSON *)

Fixpoint skip_ws (s : list ascii) : list ascii :=
  match s with
  | c :: r => if is_space c then skip_ws r else s
  | [] => []
  end.

(** The characters of a string literal after its opening quote. *)
Fixpoint parse_chars (s : list ascii) (acc : list ascii)
  : option (string * list ascii) :=
  match s with
  | [] => None
  | "034"%char :: r => Some (string_of_list_ascii (rev acc), r)
  | "\"%char :: c :: r =>
      let unescaped :=
        if Ascii.eqb c "n" then Some "010"%char
        else if Ascii.eqb c "t" then Some "009"%char
        else if Ascii.eqb c "r" then Some "013"%char
        else if Ascii.eqb c "034" || Ascii.eqb c "\" || Ascii.eqb c "/" then Some c
        else None in
      match unescaped with
      | Some c' => parse_chars r (c' :: acc)
      | None => None
      end
  | c :: r => parse_chars r (c :: acc)
  end.

Fixpoint parse_digits (s : list ascii) (acc : Z) : Z * list ascii :=
  match s with
  | c :: r => if is_digit c
              then parse_digits r (10 * acc + (Z.of_N (N_of_ascii c) - 48))
              else (acc, s)
  | [] => (acc, [])
  end.

Definition parse_number (s : list ascii) : option (value * list ascii) :=
  match s with
  | "-"%char :: c :: r =>
      if is_digit c then let '(n, r') := parse_digits (c :: r) 0 in Some (VNum (- n), r')
      else None
  | c :: _ =>
      if is_digit c then let '(n, r') := parse_digits s 0 in Some (VNum n, r')
      else None
  | [] => None
  end.

Fixpoint parse_value (fuel : nat) (s : list ascii) : option (value * list ascii) :=
  match fuel with
  | O => None
  | S fuel =>
      match skip_ws s with
      | "n"%char :: "u"%char :: "l"%char :: "l"%char :: r => Some (VNull, r)
      | "t"%char :: "r"%char :: "u"%char :: "e"%char :: r => Some (VBool true, r)
      | "f"%char :: "a"%char :: "l"%char :: "s"%char :: "e"%char :: r => Some (VBool false, r)
      | "034"%char :: r =>
          '(str, r') ← parse_chars r []; Some (VStr str, r')
      | "["%char :: r =>
          match skip_ws r with
          | "]"%char :: r' => Some (VArr [], r')
          | _ => '(items, r') ← parse_items fuel r; Some (VArr items, r')
          end
      | "{"%char :: r =>
          match skip_ws r with
          | "}"%char :: r' => Some (VObj [], r')
          | _ => '(fields, r') ← parse_members fuel r; Some (VObj fields, r')
          end
      | s' => parse_number s'
      end
  end
with parse_items (fuel : nat) (s : list ascii) : option (list value * list ascii) :=
  match fuel with
  | O => None
  | S fuel =>
      '(v, r) ← parse_value fuel s;
      match skip_ws r with
      | ","%char :: r' => '(vs, r'') ← parse_items fuel r'; Some (v :: vs, r'')
      | "]"%char :: r' => Some ([v], r')
      | _ => None
      end
  end
with parse_members (fuel : nat) (s : list ascii)
  : option (list (string * value) * list ascii) :=
  match fuel with
  | O => None
  | S fuel =>
      match skip_ws s with
      | "034"%char :: r =>
          '(k, r) ← parse_chars r [];
          match skip_ws r with
          | ":"%char :: r =>
              '(v, r) ← parse_value fuel r;
              match skip_ws r with
              | ","%char :: r' => '(fs, r'') ← parse_members fuel r'; Some ((k, v) :: fs, r'')
              | "}"%char :: r' => Some ([(k, v)], r')
              | _ => None
              end
          | _ => None
          end
      | _ => None
      end
  end.

Definition JSON_parse (text : string) : option value :=
  let s := list_ascii_of_string text in
  '(v, r) ← parse_value (S (length s)) s;
  match skip_ws r with [] => Some v | _ => None end.

Fixpoint escape (s : string) : string :=
  match s with
  | EmptyString => EmptyString
  | String c r =>
      if Ascii.eqb c "034" || Ascii.eqb c "\" then String "\" (String c (escape r))
      else if Ascii.eqb c "010" then String "\" (String "n" (escape r))
      else if Ascii.eqb c "009" then String "\" (String "t" (escape r))
      else if Ascii.eqb c "013" then String "\" (String "r" (escape r))
      else String c (escape r)
  end.

Definition quote (s : string) : string :=
  String "034" (escape s) +:+ String "034" "".

(** JSON text written with ['] for the double quote. *)
Definition json (text : string) : string :=
  string_map (fun c => if Ascii.eqb c "'" then "034"%char else c) text.

(** [JSON.stringify], without the indentation: a property whose value is
    [undefined] is left out, an [undefined] array element prints as
    [null]. *)
Fixpoint JSON_stringify (v : value) : string :=
  match v with
  | VUndef | VNull => "null"
  | VBool true => "true"
  | VBool false => "false"
  | VNum n => pretty n
  | VStr s => quote s
  | VArr items =>
      "[" +:+ join_with "," ((fix elems (l : list value) : list string :=
                                match l with
                                | [] => []
                                | x :: r => JSON_stringify x :: elems r
                                end) items) +:+ "]"
  | VObj fields =>
      "{" +:+ join_with "," ((fix members (l : list (string * value)) : list string :=
                                match l with
                                | [] => []
                                | (_, VUndef) :: r => members r
                                | (k, x) :: r => (quote k +:+ ":" +:+ JSON_stringify x) :: members r
                                end) fields) +:+ "}"
  end.
(** *** Date *)

(** Days since 1970-01-01 of a date of the proleptic Gregorian calendar,
    and the year of a day number. *)
Definition days_from_civil (y m d : Z) : Z :=
  let y := if m <=? 2 then y - 1 else y in
  let era := y / 400 in
  let yoe := y - era * 400 in
  let doy := (153 * (if 2 <? m then m - 3 else m + 9) + 2) / 5 + d - 1 in
  let doe := yoe * 365 + yoe / 4 - yoe / 100 + doy in
  era * 146097 + doe - 719468.

Definition year_of_days (z : Z) : Z :=
  let z := z + 719468 in
  let era := z / 146097 in
  let doe := z - era * 146097 in
  let yoe := (doe - doe / 1460 + doe / 36524 - doe / 146096) / 365 in
  let doy := doe - (365 * yoe + yoe / 4 - yoe / 100) in
  let mp := (5 * doy + 2) / 153 in
  let m := if mp <? 10 then mp + 3 else mp - 9 in
  yoe + era * 400 + (if m <=? 2 then 1 else 0).

(** [new Date(v)]: a number is the time value itself, a string of the
    form [YYYY-MM-DD] is midnight UTC of that day, anything else is taken
    as an invalid date. *)
Definition Date_new (v : value) : option Z :=
  match v with
  | VNum n => Some n
  | VStr s =>
      match list_ascii_of_string s with
      | [y1; y2; y3; y4; "-"%char; m1; m2; "-"%char; d1; d2] =>
          if forallb is_digit [y1; y2; y3; y4; m1; m2; d1; d2] then
            let y := fst (parse_digits [y1; y2; y3; y4] 0) in
            let m := fst (parse_digits [m1; m2] 0) in
            let d := fst (parse_digits [d1; d2] 0) in
            if (1 <=? m) && (m <=? 12) && (1 <=? d) && (d <=? 31)
            then Some (days_from_civil y m d * 86400000)
            else None
          else None
      | _ => None
      end
  | _ => None
  end.

(** [getFullYear] in the time zone UTC. *)
Definition getFullYear (t : Z) : Z := year_of_days (t / 86400000).

End Sample.

(** ** Vocabulary of the statements *)

Definition nullish (v : value) : bool :=
  match v with VUndef | VNull => true | _ => false end.

(** The words of the specification on editions: an edition is tagged [t]
    when its [format] or its [type] is [t]; it bears an ISBN when its
    [isbn] is truthy; its normalized ISBN is [cleanISBN] of it. *)
Definition tagged (t : string) (edition : value) : bool :=
  is_str (prop_opt edition "format") t || is_str (prop_opt edition "type") t.
Definition has_isbn (edition : value) : bool := truthy (prop_opt edition "isbn").
Definition isbn_of (edition : value) : string := Script.cleanISBN (prop_opt edition "isbn").

Definition isbns_tagged (t : string) (eds : list value) : list string :=
  map isbn_of (List.filter (fun e => tagged t e && has_isbn e) eds).
Definition isbns_all (eds : list value) : list string :=
  map isbn_of (List.filter has_isbn eds).

(** Appending the values not yet present, in order. *)
Definition add_new (acc xs : list string) : list string :=
  fold_left (fun acc x => if Script.includes acc x then acc else acc ++ [x]) xs acc.

(** [a] is not earlier than [b], both dates being valid: the order
    [a.date >= b.date] of the time values. *)
Definition not_earlier (Date_new : value -> option Z) (a b : Script.bookRecord) : Prop :=
  exists ta tb, Date_new (Script.date a) = Some ta /\
                Date_new (Script.date b) = Some tb /\ tb <= ta.

(** A record with a title and with the year parsed from its date. *)
Definition dated_and_titled (Date_new : value -> option Z) (getFullYear : Z -> Z)
    (r : Script.bookRecord) : Prop :=
  truthy (Script.title r) = true /\
  truthy (Script.date r) = true /\
  exists t, Date_new (Script.date r) = Some t /\
            Script.year r = Some (getFullYear t) /\ getFullYear t <> 0.

Definition valid_date (Date_new : value -> option Z) (r : Script.bookRecord) : Prop :=
  is_Some (Date_new (Script.date r)).

(** An edition that the loops over the editions get past: it is not
    [null] or [undefined] (its properties can be read), and its [isbn]
    is a value that [String] converts. *)
Definition edition_converts (edition : value) : bool :=
  negb (nullish edition) && negb (String_throws (prop_opt edition "isbn")).

(** The shape of a bucket on which [processBooks] runs to its end: an
    array of entries other than [null], whose editions, when an array,
    are editions of that kind. *)
Definition editions_ok (editions : value) : bool :=
  match editions with
  | VArr eds => forallb edition_converts eds
  | _ => true
  end.
Definition entry_ok (b : value) : bool :=
  negb (nullish b) && editions_ok (prop_opt b "editions").
Definition bucket_ok (raw : value) : bool :=
  match raw with VArr items => forallb entry_ok items | _ => false end.

(** The entries of a bucket: the elements of the array [raw]. *)
Definition entries (raw : value) : list value :=
  match raw with VArr items => items | _ => [] end.

(** The cover [c], returned in the world [w], is the body of the latest
    request, it is longer than [minimum] bytes, and its author is a truthy
    value or [null]. *)
Definition accepted (network : nat -> string -> option string) (minimum : nat)
    (w : world) (c : Fetcher.cover) : Prop :=
  (minimum < String.length (Fetcher.buffer c))%nat /\
  js_or (Fetcher.author c) VNull = Fetcher.author c /\
  exists url earlier,
    requests w = url :: earlier /\
    network (length earlier) url = Some (Fetcher.buffer c).

(** [later] is [earlier] after some more requests, with the same files. *)
Definition only_requests (earlier later : world) : Prop :=
  files later = files earlier /\
  exists urls, requests later = urls ++ requests earlier.

(** The key of a book in the covers map (for an id that converts to a
    string), the path of its image file and the [path] of its entry. *)
Definition key_of (b : Fetcher.book) : string := ToString (Fetcher.id b).
Definition image_file (path_join : string -> string -> string) (b : Fetcher.book) : string :=
  path_join Fetcher.COVERS_DIR (key_of b +:+ ".jpg").
Definition cover_name (b : Fetcher.book) : value :=
  VStr ("covers/" +:+ key_of b +:+ ".jpg").

(** The test of the second skip: a prior entry with [path] null and an
    author. *)
Definition no_cover_with_author (existingEntry : value) : bool :=
  truthy existingEntry && is_null (prop_opt existingEntry "path")
  && truthy (prop_opt existingEntry "author").

(** The URLs of the three Open Library requests of [tryOpenLibrary]. *)
Definition search_url (isbn : string) : string :=
  "https://openlibrary.org/search.json?isbn=" +:+ isbn +:+ "&limit=1".
Definition cover_url (coverId : string) : string :=
  "https://covers.openlibrary.org/b/id/" +:+ coverId +:+ "-L.jpg".
Definition direct_url (isbn : string) : string :=
  "https://covers.openlibrary.org/b/isbn/" +:+ isbn +:+ "-L.jpg".

(** The cover id that a search response offers:
    [searchData.docs[0].cover_i]. *)
Definition offered_cover_id (searchData : value) : value :=
  prop_opt (prop_opt (prop_opt searchData "docs") "0") "cover_i".

(** What [tryOpenLibrary] returns for a direct image. *)
Definition direct_cover (answer : option string) : option Fetcher.cover :=
  match answer with
  | Some image =>
      if (1000 <? String.length image)%nat
      then Some {| Fetcher.buffer := image; Fetcher.author := VNull |}
      else None
  | None => None
  end.

(** Steps 3 to 5 of the resolution of a book, in their order: the
    lookup at Open Library for each ISBN, until one returns a cover; when
    none did, the lookup at Google Books for each ISBN; when none did,
    the title search.  [found] is the cover, if any, and the second world
    the one after the last lookup. *)
Inductive cover_lookup (JSON_parse : string -> option value)
    (network : nat -> string -> option string) (b : Fetcher.book) (w : world)
  : option Fetcher.cover -> world -> Prop :=
| TRY_COVER_BY_ISBN_PRIMARY_SOURCE c w1 :
    Fetcher.try_each (Fetcher.tryOpenLibrary JSON_parse network) (Fetcher.isbns b) w
    = (Ok (Some c), w1) ->
    cover_lookup JSON_parse network b w (Some c) w1
| TRY_COVER_BY_ISBN_SECONDARY_SOURCE c w1 w2 :
    Fetcher.try_each (Fetcher.tryOpenLibrary JSON_parse network) (Fetcher.isbns b) w
    = (Ok None, w1) ->
    Fetcher.try_each (Fetcher.tryGoogleBooks JSON_parse network) (Fetcher.isbns b) w1
    = (Ok (Some c), w2) ->
    cover_lookup JSON_parse network b w (Some c) w2
| TRY_COVER_BY_TITLE_SEARCH found w1 w2 w3 :
    Fetcher.try_each (Fetcher.tryOpenLibrary JSON_parse network) (Fetcher.isbns b) w
    = (Ok None, w1) ->
    Fetcher.try_each (Fetcher.tryGoogleBooks JSON_parse network) (Fetcher.isbns b) w1
    = (Ok None, w2) ->
    Fetcher.tryOpenLibraryTitleSearch JSON_parse network (Fetcher.title b) w2
    = (Ok found, w3) ->
    cover_lookup JSON_parse network b w found w3.

(** The states in which the loop of [main] leaves one book: the entry it
    assigns under the key of the book and the world after it.  A skipped
    book leaves the world as it was; a book that is not skipped goes
    through the lookups for a cover, and its cover is written to the image
    file, or, when there is none, through the author lookup. *)
Inductive resolution (JSON_parse : string -> option value)
    (path_join : string -> string -> string)
    (network : nat -> string -> option string)
    (existing : value) (b : Fetcher.book) (w : world) : value -> world -> Prop :=
| SKIP_CACHED :
    is_Some (files w !! image_file path_join b) ->
    resolution JSON_parse path_join network existing b w
      (Fetcher.entry (cover_name b)
         (js_or (prop_opt (prop_opt existing (key_of b)) "author") VNull))
      w
| SKIP_NO_COVER_WITH_AUTHOR :
    files w !! image_file path_join b = None ->
    no_cover_with_author (prop_opt existing (key_of b)) = true ->
    resolution JSON_parse path_join network existing b w (prop_opt existing (key_of b)) w
| COVER_FOUND c w1 :
    files w !! image_file path_join b = None ->
    no_cover_with_author (prop_opt existing (key_of b)) = false ->
    cover_lookup JSON_parse network b w (Some c) w1 ->
    resolution JSON_parse path_join network existing b w
      (Fetcher.entry (cover_name b) (Fetcher.author c))
      {| files := <[image_file path_join b := Fetcher.buffer c]> (files w1);
         requests := requests w1 |}
| AUTHOR_ONLY_FALLBACK a w1 w2 :
    files w !! image_file path_join b = None ->
    no_cover_with_author (prop_opt existing (key_of b)) = false ->
    cover_lookup JSON_parse network b w None w1 ->
    Fetcher.tryGetAuthorOnly JSON_parse network (Fetcher.isbns b) (Fetcher.title b) w1
    = (Ok a, w2) ->
    resolution JSON_parse path_join network existing b w (Fetcher.entry VNull a) w2.

(** The loop of [main]: the books are resolved one after the other, each
    entry assigned under the key of its book. *)
Inductive resolutions (JSON_parse : string -> option value)
    (path_join : string -> string -> string)
    (network : nat -> string -> option string) (existing : value)
  : list Fetcher.book -> gmap string value -> world -> gmap string value -> world -> Prop :=
| resolutions_nil m w : resolutions JSON_parse path_join network existing [] m w m w
| resolutions_cons b books m w e w1 m' w' :
    resolution JSON_parse path_join network existing b w e w1 ->
    resolutions JSON_parse path_join network existing books
      (Fetcher.set_property (key_of b) e m) w1 m' w' ->
    resolutions JSON_parse path_join network existing (b :: books) m w m' w'.

(** The part of [main] before it writes [covers.json]: the covers map it
    builds. *)
Definition build_map (JSON_parse : string -> option value)
    (path_join : string -> string -> string)
    (network : nat -> string -> option string) : M (gmap string value) :=
  books ← Fetcher.loadBooks JSON_parse;
  existingCoversMap ← Fetcher.loadExisting JSON_parse;
  Fetcher.resolveAll JSON_parse path_join network existingCoversMap books ∅.

(** The world after [covers.json] is written with the map [m]. *)
Definition persisted_world (JSON_stringify : value -> string) (w : world)
    (m : gmap string value) : world :=
  {| files := <[Fetcher.COVERS_MAP_FILE := JSON_stringify (Fetcher.object_of m)]> (files w);
     requests := requests w |}.

(** The keys of an object. *)
Definition keys (v : value) : list string :=
  match v with VObj fields => fields.*1 | _ => [] end.

(** A book is settled in the world [w] with the map [m] when its image
    file is there and its entry has a path, or no image file is there and
    its entry has [path] null and an author. *)
Definition settled (path_join : string -> string -> string) (w : world)
    (m : gmap string value) (b : Fetcher.book) : bool :=
  let e := default VUndef (m !! key_of b) in
  if bool_decide (is_Some (files w !! image_file path_join b))
  then negb (is_null (prop_opt e "path"))
  else no_cover_with_author e.

(** The entries that a run records under the key [k]: one with [path]
    null, or the entry of the image file of [k] with an author that is
    truthy or null. *)
Definition recorded_entry (k : string) (e : value) : Prop :=
  is_null (prop_opt e "path") = true \/
  exists a, e = Fetcher.entry (VStr ("covers/" +:+ k +:+ ".jpg")) a /\ js_or a VNull = a.


(** ** Sample inputs *)

(** An edition [{ type: t, isbn: i }]. *)
Definition edition_of (t i : string) : value := VObj [("type", VStr t); ("isbn", VStr i)].

(** An export with both buckets: an entry without a title and one without
    a date among the finished books. *)
Definition export_text : string :=
  Sample.json
    ("[{'type':'myfinishedbooks','books':["
     +:+ "{'title':'Dune','bookId':'1','finishedDate':'2023-05-01',"
     +:+ "'editions':[{'type':'eBook','isbn':'978-0-441-01359-3'}]},"
     +:+ "{'title':'Emma','bookId':'2','finishedDate':'2024-01-15',"
     +:+ "'editions':[{'type':'audioBook','isbn':'0-19-953552-x'}]},"
     +:+ "{'bookId':'3','finishedDate':'2022-01-01'},"
     +:+ "{'title':'Undated','bookId':'4'}]},"
     +:+ "{'type':'mysavedbooks','books':["
     +:+ "{'title':'Ulysses','bookid':'5','date':'2021-03-04'},"
     +:+ "{'title':'Walden','bookid':'6','date':'2021-06-30'}]}]").

Definition export_data : value :=
  default VUndef (Sample.JSON_parse export_text).

Definition export_finished : list Script.bookRecord :=
  [ {| Script.title := VStr "Emma"; Script.bookId := VStr "2";
       Script.isbns := ["019953552x"]; Script.date := VStr "2024-01-15";
       Script.year := Some 2024 |};
    {| Script.title := VStr "Dune"; Script.bookId := VStr "1";
       Script.isbns := ["9780441013593"]; Script.date := VStr "2023-05-01";
       Script.year := Some 2023 |} ].

Definition export_saved : list Script.bookRecord :=
  [ {| Script.title := VStr "Walden"; Script.bookId := VStr "6";
       Script.isbns := []; Script.date := VStr "2021-06-30";
       Script.year := Some 2021 |};
    {| Script.title := VStr "Ulysses"; Script.bookId := VStr "5";
       Script.isbns := []; Script.date := VStr "2021-03-04";
       Script.year := Some 2021 |} ].

(** An export whose finished entry spells its identifier [bookid] and
    whose saved entries use one spelling each. *)
Definition spellings_text : string :=
  Sample.json
    ("[{'type':'myfinishedbooks','books':["
     +:+ "{'title':'Emma','bookid':'7','finishedDate':'2024-01-15',"
     +:+ "'editions':[{'type':'eBook','isbn':'1'}]}]},"
     +:+ "{'type':'mysavedbooks','books':["
     +:+ "{'title':'Ulysses','bookId':'8','date':'2021-03-04',"
     +:+ "'editions':[{'type':'eBook','isbn':'2'}]},"
     +:+ "{'title':'Walden','bookid':'9','date':'2021-06-30',"
     +:+ "'editions':[{'type':'eBook','isbn':'3'}]}]}]").

Definition spellings_data : value :=
  default VUndef (Sample.JSON_parse spellings_text).

(** An image of [n] bytes. *)
Definition image_of_size (n : nat) : string := string_of_list_ascii (repeat "x"%char n).

(** A network that answers the Open Library search for the ISBN of Dune
    with a cover id and an author, serves that cover, answers the Google
    Books search for the ISBN of Emma with an author and no image, and
    fails every other request. *)
Definition sample_network (i : nat) (url : string) : option string :=
  if String.eqb url "https://openlibrary.org/search.json?isbn=9780441013593&limit=1"
  then Some (Sample.json "{'docs':[{'cover_i':42,'author_name':['Frank Herbert']}]}")
  else if String.eqb url "https://covers.openlibrary.org/b/id/42-L.jpg"
  then Some (image_of_size 1500)
  else if String.eqb url "https://www.googleapis.com/books/v1/volumes?q=isbn:019953552x"
  then Some (Sample.json "{'items':[{'volumeInfo':{'authors':['Jane Austen']}}]}")
  else None.

(** A network on which every request fails. *)
Definition failing_network (i : nat) (url : string) : option string := None.

(** The world before a run: the export, and possibly a [covers.json]. *)
Definition world_of (export : string) (covers : option string) : world :=
  {| files := match covers with
              | Some text => <[Fetcher.COVERS_MAP_FILE := text]> {[Fetcher.BOOKBEAT_FILE := export]}
              | None => {[Fetcher.BOOKBEAT_FILE := export]}
              end;
     requests := [] |}.

(** The sample export, with a [covers.json] left by an earlier run on
    another export. *)
Definition sample_world : world :=
  world_of export_text
    (Some (Sample.json "{'99':{'path':'covers/99.jpg','author':'Old'}}")).

(** The map of the run on [sample_world] over [sample_network]. *)
Definition sample_map : gmap string value :=
  <["1" := Fetcher.entry (VStr "covers/1.jpg") (VStr "Frank Herbert")]>
    (<["2" := Fetcher.entry VNull (VStr "Jane Austen")]> ∅).

(** A network like [sample_network] whose Open Library images have 1000
    bytes. *)
Definition small_image_network (i : nat) (url : string) : option string :=
  if String.prefix "https://covers.openlibrary.org/" url
  then Some (image_of_size 1000)
  else sample_network i url.

(** The books of the sample export. *)
Definition sample_books : list Fetcher.book :=
  [ {| Fetcher.id := VStr "1"; Fetcher.title := VStr "Dune";
       Fetcher.isbns := ["9780441013593"] |};
    {| Fetcher.id := VStr "2"; Fetcher.title := VStr "Emma";
       Fetcher.isbns := ["019953552x"] |} ].

(** The world in which the first sample run has built its map. *)
Definition sample_world_built : world :=
  (build_map Sample.JSON_parse Sample.path_join sample_network sample_world).2.


(** An export in the flat shape, an object keyed by bucket type. *)
Definition flat_text : string :=
  Sample.json "{'myfinishedbooks':[],'mysavedbooks':[]}".

(** An export whose only book has the identifier [__proto__]. *)
Definition proto_text : string :=
  Sample.json
    ("[{'type':'myfinishedbooks','books':["
     +:+ "{'title':'Dune','bookId':'__proto__','finishedDate':'2023-05-01',"
     +:+ "'editions':[{'type':'eBook','isbn':'978-0-441-01359-3'}]}]}]").

(** A network like [sample_network] on which the image of the cover id
    has 500 bytes and the direct image of the ISBN of Dune 1500 bytes. *)
Definition fallthrough_network (i : nat) (url : string) : option string :=
  if String.eqb url "https://covers.openlibrary.org/b/id/42-L.jpg"
  then Some (image_of_size 500)
  else if String.eqb url "https://covers.openlibrary.org/b/isbn/9780441013593-L.jpg"
  then Some (image_of_size 1500)
  else sample_network i url.

(** A network on which every request fails but the Google Books search
    for the ISBN of Emma, whose response lists as first author an object
    with a property [toString]. *)
Definition unprintable_author_network (i : nat) (url : string) : option string :=
  if String.eqb url "https://www.googleapis.com/books/v1/volumes?q=isbn:019953552x"
  then Some (Sample.json "{'items':[{'volumeInfo':{'authors':[{'toString':1}]}}]}")
  else None.

(** ** Vocabulary of the further properties *)

(** The books of the year [y], in the order of the list. *)
Definition books_of_year (y : option Z) (books : list Script.bookRecord)
  : list Script.bookRecord :=
  List.filter (fun b => bool_decide (Script.year b = y)) books.

(** [a] is a later year than [b]. *)
Definition later_year (a b : option Z) : Prop :=
  exists ya yb, a = Some ya /\ b = Some yb /\ yb < ya.

(** [later] is [earlier] after at most [k] more requests. *)
Definition at_most_requests (k : nat) (earlier later : world) : Prop :=
  exists urls, requests later = urls ++ requests earlier /\ (length urls <= k)%nat.

(** The requests that the resolution of one book may need: three per ISBN
    at Open Library, two per ISBN at Google Books, two for the title
    search, and one per ISBN and one more for the author. *)
Definition request_budget (b : Fetcher.book) : nat :=
  (6 * length (Fetcher.isbns b) + 3)%nat.

(** A value that is not an object: equal primitives are the same value. *)
Definition primitive (v : value) : bool :=
  match v with VArr _ | VObj _ => false | _ => true end.
(** A string of ASCII characters: its bytes are its characters. *)
Definition ascii_only (s : string) : bool :=
  forallb (fun c => (N_of_ascii c <? 128)%N) (list_ascii_of_string s).

(** * Properties *)

(** ** Loops and property reads *)

Lemma prop_nullish v k : nullish v = true -> prop v k = Throw TypeError.
Proof. by destruct v. Qed.

Lemma prop_defined v k : nullish v = false -> prop v k = Ok (prop_opt v k).
Proof.
  unfold prop_opt. destruct v; simpl; try done; intros _;
    by repeat case_match.
Qed.

Lemma for_of_fold {A S} (f : A -> S -> S) (body : A -> S -> outcome S) l s :
  (forall x s, x ∈ l -> body x s = Ok (f x s)) ->
  for_of l body s = Ok (fold_left (fun s x => f x s) l s).
Proof.
  revert s. induction l as [|x l IH]; intros s Hbody; simpl; [done|].
  rewrite Hbody by left. simpl. apply IH. intros y s' Hy. apply Hbody. by right.
Qed.

Lemma for_of_Ok_inv {A S} (body : A -> S -> outcome S) l s s' x :
  for_of l body s = Ok s' -> x ∈ l -> exists s1 s2, body x s1 = Ok s2.
Proof.
  revert s. induction l as [|y l IH]; intros s Hrun Hx; [by apply elem_of_nil in Hx|].
  simpl in Hrun. destruct (body y s) as [s1|] eqn:Hy; [|done].
  apply elem_of_cons in Hx as [->|Hx]; [by eauto|]. by eapply IH.
Qed.

(** ** Conversions to a string *)

Lemma String_of_converts v : String_throws v = false -> String_of v = Ok (ToString v).
Proof. unfold String_of. by intros ->. Qed.

Lemma String_of_throws v : String_throws v = true -> String_of v = Throw TypeError.
Proof. unfold String_of. by intros ->. Qed.

Lemma String_of_Ok_inv v s : String_of v = Ok s -> String_throws v = false /\ s = ToString v.
Proof. unfold String_of. destruct (String_throws v); [done|]. by intros [= <-]. Qed.

Lemma String_throws_truthy v : String_throws v = true -> truthy v = true.
Proof. by destruct v. Qed.

Lemma cleanISBN_call_converts isbn :
  String_throws isbn = false -> Script.cleanISBN_call isbn = Ok (Script.cleanISBN isbn).
Proof. intros Hisbn. unfold Script.cleanISBN_call. by rewrite String_of_converts. Qed.

Lemma edition_converts_spec e :
  edition_converts e = true <->
  nullish e = false /\ String_throws (prop_opt e "isbn") = false.
Proof.
  unfold edition_converts. rewrite andb_true_iff, !negb_true_iff. tauto.
Qed.

(** ** The ISBN list of the page script *)

Lemma tagged_with_isbn_defined t e :
  nullish e = false ->
  Script.tagged_with_isbn t e = Ok (tagged t e && has_isbn e).
Proof.
  intros He. unfold Script.tagged_with_isbn, tagged, has_isbn.
  rewrite !prop_defined by done. simpl.
  destruct (is_str (prop_opt e "format") t); simpl; [done|].
  by destruct (is_str (prop_opt e "type") t).
Qed.

Lemma fold_left_push {A} (p : A -> bool) (g : A -> string) l acc :
  fold_left (fun s x => if p x then s ++ [g x] else s) l acc
  = acc ++ map g (List.filter p l).
Proof.
  revert acc. induction l as [|x l IH]; intros acc; simpl; [by rewrite app_nil_r|].
  rewrite IH. destruct (p x); simpl; [by rewrite <- app_assoc|done].
Qed.

Lemma fold_left_push_new (p : value -> bool) l acc :
  fold_left (fun s x => if p x then
                          (if Script.includes s (isbn_of x) then s else s ++ [isbn_of x])
                        else s) l acc
  = add_new acc (map isbn_of (List.filter p l)).
Proof.
  revert acc. induction l as [|x l IH]; intros acc; simpl; [done|].
  rewrite IH. by destruct (p x).
Qed.

Lemma push_clean_defined e s :
  edition_converts e = true -> Script.push_clean e s = Ok (s ++ [isbn_of e]).
Proof.
  intros He. apply edition_converts_spec in He as [Hnn Hisbn].
  unfold Script.push_clean. rewrite prop_defined by done. simpl.
  by rewrite cleanISBN_call_converts.
Qed.

Lemma push_clean_new_defined e s :
  edition_converts e = true ->
  Script.push_clean_new e s
  = Ok (if Script.includes s (isbn_of e) then s else s ++ [isbn_of e]).
Proof.
  intros He. apply edition_converts_spec in He as [Hnn Hisbn].
  unfold Script.push_clean_new. rewrite prop_defined by done. simpl.
  by rewrite cleanISBN_call_converts.
Qed.

(** On editions none of which is [null] or has an ISBN that does not
    convert, the three loops run to the end. *)
Lemma extractAllISBNs_defined eds :
  forallb edition_converts eds = true ->
  Script.extractAllISBNs (VArr eds)
  = Ok (add_new (add_new (isbns_tagged "eBook" eds) (isbns_tagged "audioBook" eds))
          (isbns_all eds)).
Proof.
  intros Hall. rewrite forallb_forall in Hall.
  assert (Hok : forall e, e ∈ eds -> edition_converts e = true).
  { intros e He. by apply list_elem_of_In, Hall in He. }
  assert (Hnn : forall e, e ∈ eds -> nullish e = false).
  { intros e He. by apply Hok, edition_converts_spec in He as [? _]. }
  unfold Script.extractAllISBNs.
  rewrite (for_of_fold (fun e s => if tagged "eBook" e && has_isbn e
                                   then s ++ [isbn_of e] else s)).
  2:{ intros e s He. rewrite tagged_with_isbn_defined by auto. simpl.
      destruct (tagged "eBook" e && has_isbn e); [|done].
      by apply push_clean_defined, Hok. }
  simpl. rewrite fold_left_push. simpl.
  rewrite (for_of_fold (fun e s => if tagged "audioBook" e && has_isbn e
                                   then (if Script.includes s (isbn_of e) then s else s ++ [isbn_of e])
                                   else s)).
  2:{ intros e s He. rewrite tagged_with_isbn_defined by auto. simpl.
      destruct (tagged "audioBook" e && has_isbn e); [|done].
      by apply push_clean_new_defined, Hok. }
  simpl. rewrite fold_left_push_new.
  rewrite (for_of_fold (fun e s => if has_isbn e
                                   then (if Script.includes s (isbn_of e) then s else s ++ [isbn_of e])
                                   else s)).
  2:{ intros e s He. rewrite prop_defined by auto. simpl. fold (has_isbn e).
      destruct (has_isbn e); [|done].
      by apply push_clean_new_defined, Hok. }
  by rewrite fold_left_push_new.
Qed.

(** An edition that is [null], or whose ISBN does not convert, makes a
    loop throw: the first loop at a [null], the third loop, which
    normalizes the ISBN of every edition that bears one, at the ISBN. *)
Lemma extractAllISBNs_Ok_inv eds l :
  Script.extractAllISBNs (VArr eds) = Ok l ->
  forallb edition_converts eds = true.
Proof.
  intros Hrun. apply forallb_forall. intros e He. apply list_elem_of_In in He.
  apply edition_converts_spec.
  unfold Script.extractAllISBNs in Hrun.
  match type of Hrun with
  | context [for_of eds ?b []] => destruct (for_of eds b []) as [s|] eqn:Hfirst; [|done]
  end.
  simpl in Hrun.
  assert (Hnn : nullish e = false).
  { destruct (nullish e) eqn:Hn; [|done]. exfalso.
    destruct (for_of_Ok_inv _ _ _ _ e Hfirst He) as (s1 & s2 & Hb).
    unfold Script.tagged_with_isbn in Hb. by rewrite (prop_nullish e "format") in Hb. }
  split; [done|].
  match type of Hrun with
  | context [for_of eds ?b s] => destruct (for_of eds b s) as [s'|] eqn:Hsecond; [|done]
  end.
  simpl in Hrun.
  destruct (for_of_Ok_inv _ _ _ _ e Hrun He) as (s1 & s2 & Hb).
  rewrite prop_defined in Hb by done. simpl in Hb.
  destruct (String_throws (prop_opt e "isbn")) eqn:Hisbn; [exfalso|done].
  rewrite (String_throws_truthy _ Hisbn) in Hb.
  unfold Script.push_clean_new in Hb. rewrite prop_defined in Hb by done. simpl in Hb.
  unfold Script.cleanISBN_call in Hb. by rewrite String_of_throws in Hb.
Qed.

Lemma add_new_cons acc x xs :
  add_new acc (x :: xs)
  = add_new (if Script.includes acc x then acc else acc ++ [x]) xs.
Proof. done. Qed.

(** [add_new] extends the list by a duplicate-free selection of the new
    values, in their order. *)
Lemma add_new_extends acc xs :
  exists new,
    add_new acc xs = acc ++ new /\ sublist new xs /\ NoDup new /\
    (forall x, x ∈ new -> x ∉ acc) /\
    (forall x, x ∈ xs -> x ∈ acc ++ new).
Proof.
  revert acc. induction xs as [|x xs IH]; intros acc.
  { exists []. rewrite app_nil_r. repeat split; try done.
    - constructor.
    - intros x Hx. by apply elem_of_nil in Hx.
    - intros x Hx. by apply elem_of_nil in Hx. }
  rewrite add_new_cons. unfold Script.includes. case_bool_decide as Hin.
  - destruct (IH acc) as (new & -> & Hsub & Hnd & Hfresh & Hall).
    exists new. repeat split; try done.
    + by apply sublist_cons.
    + intros y Hy. apply elem_of_cons in Hy as [->|Hy]; [|by auto].
      apply elem_of_app. by left.
  - destruct (IH (acc ++ [x])) as (new & -> & Hsub & Hnd & Hfresh & Hall).
    exists (x :: new). rewrite <- app_assoc. repeat split; try done.
    + by apply sublist_skip.
    + apply NoDup_cons. split; [|done].
      intros Hx. apply (Hfresh x Hx). apply elem_of_app. right. by left.
    + intros y Hy. apply elem_of_cons in Hy as [->|Hy]; [done|].
      intros Hacc. apply (Hfresh y Hy). apply elem_of_app. by left.
    + intros y Hy. apply elem_of_cons in Hy as [->|Hy].
      * apply elem_of_app. right. by left.
      * specialize (Hall y Hy). rewrite <- app_assoc in Hall. exact Hall.
Qed.

(** The shape of the extracted list: the eBook ISBNs, then a selection of
    the audioBook ISBNs, then a selection of the ISBNs of all editions. *)
Lemma extractAllISBNs_shape eds l :
  Script.extractAllISBNs (VArr eds) = Ok l ->
  exists a o,
    l = isbns_tagged "eBook" eds ++ a ++ o /\
    sublist a (isbns_tagged "audioBook" eds) /\
    sublist o (isbns_all eds) /\
    NoDup (a ++ o) /\
    (forall x, x ∈ a ++ o -> x ∉ isbns_tagged "eBook" eds) /\
    (forall x, x ∈ isbns_tagged "audioBook" eds -> x ∈ isbns_tagged "eBook" eds ++ a) /\
    (forall x, x ∈ isbns_all eds -> x ∈ l).
Proof.
  intros Hrun. pose proof (extractAllISBNs_Ok_inv _ _ Hrun) as Hnn.
  rewrite (extractAllISBNs_defined _ Hnn) in Hrun. injection Hrun as <-.
  destruct (add_new_extends (isbns_tagged "eBook" eds) (isbns_tagged "audioBook" eds))
    as (a & -> & Ha & Hnda & Hfa & Halla).
  destruct (add_new_extends (isbns_tagged "eBook" eds ++ a) (isbns_all eds))
    as (o & -> & Ho & Hndo & Hfo & Hallo).
  exists a, o. rewrite <- app_assoc. repeat split; try done.
  - apply NoDup_app. repeat split; try done.
    intros x Hxa Hxo. apply (Hfo x Hxo). apply elem_of_app. by right.
  - intros x Hx He. apply elem_of_app in Hx as [Hx|Hx].
    + by apply (Hfa x Hx).
    + apply (Hfo x Hx). apply elem_of_app. by left.
  - intros x Hx. specialize (Hallo x Hx). by rewrite <- app_assoc in Hallo.
Qed.




Lemma string_filter_idem p s : string_filter p (string_filter p s) = string_filter p s.
Proof.
  induction s as [|c s IH]; simpl; [done|].
  destruct (p c) eqn:Hc; simpl; [|done]. by rewrite Hc, IH.
Qed.

(** Normalizing a normalized ISBN changes nothing. *)
Lemma cleanISBN_idempotent isbn :
  Script.cleanISBN (VStr (Script.cleanISBN isbn)) = Script.cleanISBN isbn.
Proof. unfold Script.cleanISBN. simpl. apply string_filter_idem. Qed.



(** The loop of [loadBooks] over the editions keeps the normalized ISBN
    of every edition that bears one. *)
Lemma edition_isbns_defined eds :
  forallb edition_converts eds = true ->
  Fetcher.edition_isbns (VArr eds) = Ok (isbns_all eds).
Proof.
  intros Hall. rewrite forallb_forall in Hall.
  unfold Fetcher.edition_isbns. simpl.
  rewrite (for_of_fold (fun e s => if has_isbn e then s ++ [isbn_of e] else s)).
  - by rewrite fold_left_push.
  - intros e s He. apply list_elem_of_In, Hall, edition_converts_spec in He as [Hnn Hisbn].
    rewrite prop_defined by done. simpl. fold (has_isbn e).
    destruct (has_isbn e); [|done]. by rewrite String_of_converts.
Qed.

(** C3, as amended: on editions that are not [null] or [undefined], whose
    ISBNs [String] converts and whose eBook-tagged ISBNs are pairwise
    distinct after normalization, [extractAllISBNs] returns a list without
    duplicates that holds the normalized ISBN of every ISBN-bearing edition;
    the loop of [loadBooks] removes no duplicate: it returns the normalized
    ISBN of every ISBN-bearing edition, in the order of the editions. *)
Theorem extractAllISBNs_NoDup_given_distinct_eBooks eds :
  forallb edition_converts eds = true ->
  NoDup (isbns_tagged "eBook" eds) ->
  (exists l, Script.extractAllISBNs (VArr eds) = Ok l /\ NoDup l /\
             (forall e, e ∈ eds -> has_isbn e = true -> isbn_of e ∈ l)) /\
  Fetcher.edition_isbns (VArr eds) = Ok (isbns_all eds).
Proof.
  intros Hnn Hnd. split; [|by apply edition_isbns_defined].
  pose proof (extractAllISBNs_defined _ Hnn) as Hrun.
  eexists. split; [exact Hrun|].
  destruct (extractAllISBNs_shape _ _ Hrun) as (a & o & -> & _ & _ & Hao & Hfresh & _ & Hall).
  split.
  - apply NoDup_app. repeat split; try done.
    intros x Hx Hx'. by apply (Hfresh x Hx').
  - intros e He Hisbn. apply Hall. unfold isbns_all.
    apply list_elem_of_In, in_map, filter_In. split; [by apply list_elem_of_In|done].
Qed.

(** Three editions, the first two with the same normalized ISBN. *)
Lemma extractAllISBNs_NoDup_witness :
  (exists l, Script.extractAllISBNs
               (VArr [edition_of "eBook" "978-1"; edition_of "audioBook" "9781";
                      edition_of "paperback" "12"]) = Ok l /\ NoDup l /\
             (forall e, e ∈ [edition_of "eBook" "978-1"; edition_of "audioBook" "9781";
                             edition_of "paperback" "12"] ->
                        has_isbn e = true -> isbn_of e ∈ l)) /\
  Fetcher.edition_isbns
    (VArr [edition_of "eBook" "978-1"; edition_of "audioBook" "9781";
           edition_of "paperback" "12"]) = Ok ["9781"; "9781"; "12"].
Proof.
  apply (extractAllISBNs_NoDup_given_distinct_eBooks
           [edition_of "eBook" "978-1"; edition_of "audioBook" "9781";
            edition_of "paperback" "12"]).
  - reflexivity.
  - vm_compute. apply NoDup_singleton.
Defined.

(** C3, as stated, fails: two eBook editions whose ISBNs normalize to the
    same value are both kept by [extractAllISBNs], and [loadBooks] keeps
    the ISBN of every edition. *)
Lemma equal_eBook_isbns_kept_twice :
  Script.extractAllISBNs (VArr [edition_of "eBook" "978-1"; edition_of "eBook" "9781"])
  = Ok ["9781"; "9781"] /\
  Fetcher.edition_isbns (VArr [edition_of "eBook" "978-1"; edition_of "eBook" "9781"])
  = Ok ["9781"; "9781"] /\
  ~ NoDup ["9781"; "9781"].
Proof.
  repeat split; try reflexivity.
  intros Hnd. apply NoDup_cons in Hnd as [Hnotin _]. apply Hnotin. by left.
Qed.




(** ** The lists of the page script *)

Section ProcessBooks.

Variable Date_new : value -> option Z.
Variable getFullYear : Z -> Z.

Abbreviation extractYear := (Script.extractYear Date_new getFullYear).
Abbreviation by_date_desc := (Script.by_date_desc Date_new).
Abbreviation processBooks := (Script.processBooks Date_new getFullYear).
Abbreviation not_earlier := (not_earlier Date_new).
Abbreviation valid_date := (valid_date Date_new).
Abbreviation dated_and_titled := (dated_and_titled Date_new getFullYear).

Lemma for_of_collect {A B} (f : A -> outcome B) items acc l :
  for_of items (fun x acc => y ← f x; mret (acc ++ [y])) acc = Ok l ->
  exists l', l = acc ++ l' /\ Forall2 (fun x y => f x = Ok y) items l'.
Proof.
  revert acc. induction items as [|x items IH]; intros acc Hrun; simpl in Hrun.
  - injection Hrun as <-. exists []. by rewrite app_nil_r.
  - destruct (f x) as [y|] eqn:Hx; [|done]. simpl in Hrun.
    apply IH in Hrun as (l' & -> & Hl'). exists (y :: l').
    rewrite <- app_assoc. split; [done|]. by constructor.
Qed.

Lemma array_map_Ok {B} raw (f : value -> outcome B) l :
  Script.array_map raw f = Ok l ->
  exists items, raw = VArr items /\ Forall2 (fun x y => f x = Ok y) items l.
Proof.
  destruct raw; try done. simpl. intros Hrun.
  apply for_of_collect in Hrun as (l' & -> & Hl'). by exists items.
Qed.

Lemma sort_insert_Permutation {A} (cmp : A -> A -> Z) x l :
  Script.sort_insert cmp x l ≡ₚ x :: l.
Proof.
  induction l as [|y l IH]; simpl; [done|].
  destruct (cmp x y <=? 0); [done|]. rewrite IH. apply Permutation_swap.
Qed.

Lemma array_sort_Permutation {A} (cmp : A -> A -> Z) l :
  Script.array_sort cmp l ≡ₚ l.
Proof.
  induction l as [|x l IH]; simpl; [done|].
  rewrite sort_insert_Permutation. by rewrite IH.
Qed.

Lemma by_date_desc_valid a b :
  valid_date a -> valid_date b ->
  ((by_date_desc a b <=? 0) = true -> not_earlier a b) /\
  ((by_date_desc a b <=? 0) = false -> not_earlier b a).
Proof.
  intros [ta Ha] [tb Hb]. unfold Script.by_date_desc, not_earlier.
  rewrite Ha, Hb. split; intros Hcmp.
  - exists ta, tb. repeat split; try done. lia.
  - exists tb, ta. repeat split; try done. lia.
Qed.

Lemma not_earlier_trans a b c : not_earlier a b -> not_earlier b c -> not_earlier a c.
Proof.
  intros (ta & tb & Ha & Hb & Hab) (tb' & tc & Hb' & Hc & Hbc).
  rewrite Hb in Hb'. injection Hb' as <-.
  exists ta, tc. repeat split; try done. lia.
Qed.

Lemma sort_insert_sorted x l :
  valid_date x -> Forall valid_date l ->
  StronglySorted not_earlier l ->
  StronglySorted not_earlier (Script.sort_insert by_date_desc x l).
Proof.
  intros Hx Hl Hsorted. induction Hsorted as [|y l Hs IH Hy]; simpl.
  { repeat constructor. }
  apply Forall_cons in Hl as [Hvy Hl].
  destruct (by_date_desc_valid x y Hx Hvy) as [Hle Hgt].
  destruct (by_date_desc x y <=? 0) eqn:Hcmp.
  - constructor; [by constructor|].
    constructor; [by apply Hle|].
    eapply Forall_impl; [exact Hy|]. intros z Hz. simpl in Hz.
    eapply not_earlier_trans; [by apply Hle|done].
  - constructor; [by apply IH|].
    rewrite sort_insert_Permutation. constructor; [by apply Hgt|done].
Qed.

Lemma array_sort_sorted l :
  Forall valid_date l -> StronglySorted not_earlier (Script.array_sort by_date_desc l).
Proof.
  induction l as [|x l IH]; intros Hl; simpl; [constructor|].
  apply Forall_cons in Hl as [Hx Hl].
  apply sort_insert_sorted; [done| |by apply IH].
  by rewrite array_sort_Permutation.
Qed.

Lemma StronglySorted_adjacent {A} (R : A -> A -> Prop) l i a b :
  StronglySorted R l -> l !! i = Some a -> l !! S i = Some b -> R a b.
Proof.
  intros Hs. revert i. induction Hs as [|x l Hs IH Hx]; intros i Ha Hb; [done|].
  destruct i as [|i]; simpl in *.
  - injection Ha as <-. eapply Forall_forall in Hx; [exact Hx|].
    by eapply list_elem_of_lookup_2.
  - by eapply IH.
Qed.

Lemma has_year_and_title_spec r :
  Script.year r = extractYear (Script.date r) ->
  Script.has_year_and_title r = true <-> dated_and_titled r.
Proof.
  intros Hyear. unfold Script.has_year_and_title, dated_and_titled.
  rewrite Hyear. unfold Script.extractYear.
  destruct (truthy (Script.date r)) eqn:Hd.
  - destruct (Date_new (Script.date r)) as [t|] eqn:Ht.
    + rewrite andb_true_iff, negb_true_iff, Z.eqb_neq. split.
      * intros [Hy Htitle]. repeat split; try done. by exists t.
      * intros (Htitle & _ & t' & [= <-] & _ & Hy). done.
    + split; [done|]. by intros (_ & _ & t' & ? & _).
  - split; [done|]. by intros (_ & ? & _).
Qed.

(** One bucket: the records kept are the titled and dated ones among the
    records of the raw entries, and they come out sorted. *)
Lemma bucket_output (f : value -> outcome Script.bookRecord) raw recs :
  (forall b r, f b = Ok r -> Script.year r = extractYear (Script.date r)) ->
  Script.array_map raw f = Ok recs ->
  let out := Script.array_sort by_date_desc
               (filter (fun b => Script.has_year_and_title b = true) recs) in
  (forall r, r ∈ out <->
     dated_and_titled r /\ exists b, b ∈ entries raw /\ f b = Ok r) /\
  (forall i a b, out !! i = Some a -> out !! S i = Some b -> not_earlier a b).
Proof.
  intros Hf Hmap out. apply array_map_Ok in Hmap as (items & -> & Hrecs). simpl.
  assert (Hyear : forall r, r ∈ recs -> Script.year r = extractYear (Script.date r)).
  { intros r Hr. apply list_elem_of_lookup in Hr as [i Hi].
    destruct (Forall2_lookup_r _ _ _ _ _ Hrecs Hi) as (b & _ & Hb). by eapply Hf. }
  split.
  - intros r. unfold out. rewrite array_sort_Permutation, list_elem_of_filter. split.
    + intros [Hkeep Hr]. split; [by apply has_year_and_title_spec; auto|].
      apply list_elem_of_lookup in Hr as [i Hi].
      destruct (Forall2_lookup_r _ _ _ _ _ Hrecs Hi) as (b & Hb & Hfb).
      exists b. split; [|done]. by eapply list_elem_of_lookup_2.
    + intros [Hdt (b & Hb & Hfb)].
      assert (Hr : r ∈ recs).
      { apply list_elem_of_lookup in Hb as [i Hi].
        destruct (Forall2_lookup_l _ _ _ _ _ Hrecs Hi) as (r' & Hr' & Hfb').
        rewrite Hfb in Hfb'. injection Hfb' as <-. by eapply list_elem_of_lookup_2. }
      split; [|done]. by apply has_year_and_title_spec; auto.
  - intros i a b. apply StronglySorted_adjacent. apply array_sort_sorted.
    apply Forall_forall. intros r Hr. apply list_elem_of_filter in Hr as [Hkeep Hr].
    apply has_year_and_title_spec in Hkeep; [|by auto].
    destruct Hkeep as (_ & _ & t & Ht & _). by exists t.
Qed.

Lemma finished_record_year b r :
  Script.finished_record Date_new getFullYear b = Ok r ->
  Script.year r = extractYear (Script.date r).
Proof.
  unfold Script.finished_record. intros Hrun.
  repeat (match type of Hrun with
          | context [?o ≫= _] => destruct o; simpl in Hrun; [|done]
          end).
  by injection Hrun as <-.
Qed.

Lemma saved_record_year b r :
  Script.saved_record Date_new getFullYear b = Ok r ->
  Script.year r = extractYear (Script.date r).
Proof.
  unfold Script.saved_record. intros Hrun.
  repeat (match type of Hrun with
          | context [?o ≫= _] => destruct o; simpl in Hrun; [|done]
          end).
  by injection Hrun as <-.
Qed.

Lemma for_of_returns {A S} (body : A -> S -> outcome S) l s :
  (forall x s, x ∈ l -> exists s', body x s = Ok s') ->
  exists s', for_of l body s = Ok s'.
Proof.
  revert s. induction l as [|x l IH]; intros s Hbody; simpl; [by eexists|].
  destruct (Hbody x s) as [s1 ->]; [by left|]. simpl.
  apply IH. intros y s' Hy. apply Hbody. by right.
Qed.

Lemma extractAllISBNs_returns editions :
  editions_ok editions = true -> exists l, Script.extractAllISBNs editions = Ok l.
Proof.
  destruct editions; try by eexists.
  intros Hok. eexists. by apply extractAllISBNs_defined.
Qed.

Lemma array_map_returns (f : value -> outcome Script.bookRecord) raw :
  bucket_ok raw = true ->
  (forall b, entry_ok b = true -> exists r, f b = Ok r) ->
  exists recs, Script.array_map raw f = Ok recs.
Proof.
  destruct raw; try done. simpl. intros Hok Hf. rewrite forallb_forall in Hok.
  apply for_of_returns. intros b acc Hb.
  destruct (Hf b) as [r ->]; [by apply Hok, list_elem_of_In|]. by eexists.
Qed.

(** On buckets of that shape [processBooks] returns its two lists. *)
Lemma processBooks_returns data finishedRaw savedRaw :
  Script.findCategory data "myfinishedbooks" = Ok finishedRaw ->
  Script.findCategory data "mysavedbooks" = Ok savedRaw ->
  bucket_ok finishedRaw = true ->
  bucket_ok savedRaw = true ->
  exists finished saved, processBooks data = Ok (finished, saved).
Proof.
  intros HrawF HrawS HokF HokS. unfold Script.processBooks.
  rewrite HrawF, HrawS. simpl.
  destruct (array_map_returns (Script.finished_record Date_new getFullYear) finishedRaw HokF)
    as [fin ->].
  { intros b Hb. apply andb_true_iff in Hb as [Hb He].
    apply negb_true_iff in Hb. unfold Script.finished_record.
    rewrite !prop_defined by done. simpl.
    destruct (extractAllISBNs_returns _ He) as [l ->]. by eexists. }
  simpl.
  destruct (array_map_returns (Script.saved_record Date_new getFullYear) savedRaw HokS)
    as [sav ->].
  { intros b Hb. apply andb_true_iff in Hb as [Hb He].
    apply negb_true_iff in Hb. unfold Script.saved_record.
    rewrite !prop_defined by done. simpl.
    destruct (extractAllISBNs_returns _ He) as [l ->]. by eexists. }
  by eexists _, _.
Qed.

(** C7: when [processBooks] returns, a record is in the finished (saved)
    list exactly when it is the record of a raw entry of that bucket and
    has a title and a year parsed from its date, so an entry lacking a
    title or a parseable date is excluded; and both lists are sorted by
    date descending: of two adjacent records the first is not earlier than
    the second. *)
Theorem processBooks_lists_titled_dated_sorted data finished saved :
  processBooks data = Ok (finished, saved) ->
  exists finishedRaw savedRaw,
    Script.findCategory data "myfinishedbooks" = Ok finishedRaw /\
    Script.findCategory data "mysavedbooks" = Ok savedRaw /\
    (forall r, r ∈ finished <->
       dated_and_titled r /\
       exists b, b ∈ entries finishedRaw /\
                 Script.finished_record Date_new getFullYear b = Ok r) /\
    (forall r, r ∈ saved <->
       dated_and_titled r /\
       exists b, b ∈ entries savedRaw /\
                 Script.saved_record Date_new getFullYear b = Ok r) /\
    (forall i a b, finished !! i = Some a -> finished !! S i = Some b -> not_earlier a b) /\
    (forall i a b, saved !! i = Some a -> saved !! S i = Some b -> not_earlier a b).
Proof.
  unfold Script.processBooks. intros Hrun.
  destruct (Script.findCategory data "myfinishedbooks") as [finishedRaw|]; [|done].
  destruct (Script.findCategory data "mysavedbooks") as [savedRaw|]; [|done].
  simpl in Hrun.
  destruct (Script.array_map finishedRaw _) as [fin|] eqn:Hfin; [|done].
  simpl in Hrun.
  destruct (Script.array_map savedRaw _) as [sav|] eqn:Hsav; [|done].
  simpl in Hrun. injection Hrun as <- <-.
  destruct (bucket_output _ _ _ finished_record_year Hfin) as [Hin1 Hs1].
  destruct (bucket_output _ _ _ saved_record_year Hsav) as [Hin2 Hs2].
  exists finishedRaw, savedRaw.
  split; [done|]. split; [done|]. split; [exact Hin1|]. split; [exact Hin2|].
  split; [exact Hs1|exact Hs2].
Qed.

End ProcessBooks.

(** The sample export through [processBooks] on the sample host. *)
Lemma processBooks_sample_witness :
  exists finishedRaw savedRaw,
    Script.findCategory export_data "myfinishedbooks" = Ok finishedRaw /\
    Script.findCategory export_data "mysavedbooks" = Ok savedRaw /\
    (forall r, r ∈ export_finished <->
       dated_and_titled Sample.Date_new Sample.getFullYear r /\
       exists b, b ∈ entries finishedRaw /\
                 Script.finished_record Sample.Date_new Sample.getFullYear b = Ok r) /\
    (forall r, r ∈ export_saved <->
       dated_and_titled Sample.Date_new Sample.getFullYear r /\
       exists b, b ∈ entries savedRaw /\
                 Script.saved_record Sample.Date_new Sample.getFullYear b = Ok r) /\
    (forall i a b, export_finished !! i = Some a -> export_finished !! S i = Some b ->
                   not_earlier Sample.Date_new a b) /\
    (forall i a b, export_saved !! i = Some a -> export_saved !! S i = Some b ->
                   not_earlier Sample.Date_new a b).
Proof.
  apply (processBooks_lists_titled_dated_sorted
           Sample.Date_new Sample.getFullYear export_data export_finished export_saved).
  vm_compute. reflexivity.
Defined.

(** C4, the failing input: a finished entry that carries only [bookid]
    gets the identifier [undefined] from [processBooks], which reads
    [book.bookId] alone there, while the saved entries get their
    identifier under either spelling, and [loadBooks] of the fetcher
    reads either spelling in both buckets. *)
Lemma finished_entry_bookid_spelling_lost :
  (exists finished saved,
     Script.processBooks Sample.Date_new Sample.getFullYear spellings_data
     = Ok (finished, saved) /\
     map Script.bookId finished = [VUndef] /\
     map Script.bookId saved = [VStr "9"; VStr "8"]) /\
  (exists books,
     Fetcher.books_of_data spellings_data = Ok books /\
     map Fetcher.id books = [VStr "7"; VStr "8"; VStr "9"]).
Proof.
  split.
  - eexists _, _. split; [vm_compute; reflexivity|]. by split.
  - eexists. split; [vm_compute; reflexivity|]. done.
Qed.

(** ** The cover fetcher *)

Lemma bind_run {A B} (m : M A) (f : A -> M B) w :
  (m ≫= f) w = match m w with
               | (Ok a, w') => f a w'
               | (Throw e, w') => (Throw e, w')
               end.
Proof. done. Qed.

Lemma bind_Ok_inv {A B} (m : M A) (f : A -> M B) w b w' :
  (m ≫= f) w = (Ok b, w') ->
  exists a w1, m w = (Ok a, w1) /\ f a w1 = (Ok b, w').
Proof.
  rewrite bind_run. destruct (m w) as [[a|e] w1]; [|done]. by exists a, w1.
Qed.

Lemma bind_inv {A B} (m : M A) (f : A -> M B) w r w' :
  (m ≫= f) w = (r, w') ->
  (exists e, m w = (Throw e, w') /\ r = Throw e) \/
  (exists a w1, m w = (Ok a, w1) /\ f a w1 = (r, w')).
Proof.
  rewrite bind_run. destruct (m w) as [[a|e] w1].
  - right. by exists a, w1.
  - intros [= <- <-]. left. by exists e.
Qed.

(** A [try] whose [catch] block returns a value never throws. *)
Lemma try_catch_returns {A} (body : M A) (x : A) w :
  exists a w', try_catch body (mret x) w = (Ok a, w').
Proof.
  unfold try_catch. destruct (body w) as [[a|e] w']; by eauto.
Qed.

Section Pipeline.

Variable JSON_parse : string -> option value.
Variable JSON_stringify : value -> string.
Variable path_join : string -> string -> string.
Variable network : nat -> string -> option string.

Abbreviation fetchUrl := (Fetcher.fetchUrl network).
Abbreviation fetchJson := (Fetcher.fetchJson JSON_parse network).
Abbreviation tryOpenLibrary := (Fetcher.tryOpenLibrary JSON_parse network).
Abbreviation tryGoogleBooks := (Fetcher.tryGoogleBooks JSON_parse network).
Abbreviation tryOpenLibraryTitleSearch := (Fetcher.tryOpenLibraryTitleSearch JSON_parse network).
Abbreviation googleAuthor := (Fetcher.googleAuthor JSON_parse network).
Abbreviation tryGetAuthorOnly := (Fetcher.tryGetAuthorOnly JSON_parse network).
Abbreviation resolveBook := (Fetcher.resolveBook JSON_parse path_join network).
Abbreviation resolveAll := (Fetcher.resolveAll JSON_parse path_join network).
Abbreviation loadBooks := (Fetcher.loadBooks JSON_parse).
Abbreviation loadExisting := (Fetcher.loadExisting JSON_parse).
Abbreviation main := (Fetcher.main JSON_parse JSON_stringify path_join network).

(** *** No attempt throws *)

Lemma tryOpenLibrary_returns isbn w :
  exists r w', tryOpenLibrary isbn w = (Ok r, w').
Proof. apply try_catch_returns. Qed.

Lemma tryGoogleBooks_returns isbn w :
  exists r w', tryGoogleBooks isbn w = (Ok r, w').
Proof. apply try_catch_returns. Qed.

Lemma tryOpenLibraryTitleSearch_returns title w :
  exists r w', tryOpenLibraryTitleSearch title w = (Ok r, w').
Proof. apply try_catch_returns. Qed.

Lemma googleAuthor_returns isbn w :
  exists r w', googleAuthor isbn w = (Ok r, w').
Proof. apply try_catch_returns. Qed.

Lemma try_each_returns {A} (attempt : string -> M (option A)) isbns w :
  (forall isbn w, exists r w', attempt isbn w = (Ok r, w')) ->
  exists r w', Fetcher.try_each attempt isbns w = (Ok r, w').
Proof.
  intros Hattempt. revert w. induction isbns as [|isbn isbns IH]; intros w; simpl.
  { by eexists _, _. }
  rewrite bind_run. destruct (Hattempt isbn w) as (r & w1 & ->).
  destruct r as [x|]; [by eexists _, _|]. apply IH.
Qed.

Lemma tryGetAuthorOnly_returns isbns title w :
  exists a w', tryGetAuthorOnly isbns title w = (Ok a, w').
Proof.
  unfold Fetcher.tryGetAuthorOnly. rewrite bind_run.
  destruct (try_each_returns googleAuthor isbns w googleAuthor_returns) as (r & w1 & ->).
  destruct r as [a|]; [by eexists _, _|]. apply try_catch_returns.
Qed.

(** Reading the export and the existing map leaves the world as it is. *)
Lemma loadBooks_world w r w' : loadBooks w = (r, w') -> w' = w.
Proof.
  unfold Fetcher.loadBooks, readFileSync, Fetcher.parse, lift.
  rewrite !bind_run. destruct (files w !! Fetcher.BOOKBEAT_FILE); [|by intros [= _ <-]].
  rewrite bind_run. destruct (JSON_parse s); by intros [= _ <-].
Qed.

Lemma loadExisting_returns w : exists v, loadExisting w = (Ok v, w).
Proof.
  unfold Fetcher.loadExisting, existsSync, try_catch, readFileSync,
    Fetcher.parse, lift.
  rewrite bind_run. case_bool_decide as Hpresent; [|by eexists].
  rewrite bind_run. destruct (files w !! Fetcher.COVERS_MAP_FILE); [|by eexists].
  destruct (JSON_parse s); by eexists.
Qed.

(** *** What aborts a run *)

(** The conversions and the property reads throw a [TypeError] only. *)
Definition throws_TypeError_only {A} (o : outcome A) : Prop :=
  forall e, o = Throw e -> e = TypeError.

Lemma String_of_error v : throws_TypeError_only (String_of v).
Proof. unfold String_of. intros e. by destruct (String_throws v); intros [= <-]. Qed.

Lemma prop_error v k : throws_TypeError_only (prop v k).
Proof. intros e. destruct v; simpl; repeat case_match; by intros [= <-]. Qed.


Lemma bind_error {A B} (o : outcome A) (f : A -> outcome B) :
  throws_TypeError_only o -> (forall a, throws_TypeError_only (f a)) ->
  throws_TypeError_only (o ≫= f).
Proof.
  intros Ho Hf e. destruct o as [a|e'].
  - exact (Hf a e).
  - intros [= <-]. by apply Ho.
Qed.

Lemma ret_error {A} (a : A) : throws_TypeError_only (mret a).
Proof. by intros e. Qed.

Lemma for_of_error {A S} (body : A -> S -> outcome S) l s :
  (forall x s, throws_TypeError_only (body x s)) ->
  throws_TypeError_only (for_of l body s).
Proof.
  intros Hbody. revert s. induction l as [|x l IH]; intros s; simpl; [apply ret_error|].
  apply bind_error; [apply Hbody|apply IH].
Qed.



Lemma console_log_inv v r w w' :
  Fetcher.console_log v w = (r, w') ->
  w' = w /\ (r = Throw TypeError \/ r = Ok tt /\ String_throws v = false).
Proof.
  unfold Fetcher.console_log, lift, String_of. intros [= <- <-]. split; [done|].
  destruct (String_throws v); by auto.
Qed.



(** *** What an attempt accepts *)

Lemma js_or_null_idem x : js_or (js_or x VNull) VNull = js_or x VNull.
Proof. unfold js_or. by destruct (truthy x) eqn:Hx; rewrite ?Hx. Qed.

Ltac run_attempt :=
  cbv [mbind M_bind mret M_ret try_catch lift Fetcher.fetchJson Fetcher.fetchUrl
       Fetcher.parse];
  intros Hrun;
  repeat (case_match; simplify_eq/=);
  try done.

Ltac accept_latest :=
  split; [by apply Nat.ltb_lt|];
  split; [first [done | apply js_or_null_idem]|];
  eexists _, _; split; [reflexivity | simpl; eassumption].

Lemma tryOpenLibrary_accepts isbn w c w' :
  tryOpenLibrary isbn w = (Ok (Some c), w') -> accepted network 1000 w' c.
Proof.
  unfold Fetcher.tryOpenLibrary, Fetcher.first_or_null. run_attempt; accept_latest.
Qed.

Lemma tryGoogleBooks_accepts isbn w c w' :
  tryGoogleBooks isbn w = (Ok (Some c), w') -> accepted network 2000 w' c.
Proof.
  unfold Fetcher.tryGoogleBooks, Fetcher.first_or_null. run_attempt; accept_latest.
Qed.

Lemma tryOpenLibraryTitleSearch_accepts title w c w' :
  tryOpenLibraryTitleSearch title w = (Ok (Some c), w') -> accepted network 1000 w' c.
Proof.
  unfold Fetcher.tryOpenLibraryTitleSearch, Fetcher.first_or_null.
  run_attempt; accept_latest.
Qed.

Lemma accepted_weaken minimum minimum' w c :
  (minimum' <= minimum)%nat -> accepted network minimum w c -> accepted network minimum' w c.
Proof. intros Hle (Hlen & Ha & Hreq). split; [lia|done]. Qed.

Lemma try_each_accepts (attempt : string -> M (option Fetcher.cover)) minimum isbns w c w' :
  (forall isbn w c w', attempt isbn w = (Ok (Some c), w') -> accepted network minimum w' c) ->
  Fetcher.try_each attempt isbns w = (Ok (Some c), w') ->
  accepted network minimum w' c.
Proof.
  intros Hattempt. revert w. induction isbns as [|isbn isbns IH]; intros w; simpl; [done|].
  rewrite bind_run. destruct (attempt isbn w) as [[[x|]|e] w1] eqn:Hrun; [| |done].
  - intros [= <- <-]. by eapply Hattempt.
  - apply IH.
Qed.

(** *** Attempts only issue requests *)

Lemma only_requests_refl w : only_requests w w.
Proof. split; [done|]. by exists []. Qed.

Lemma only_requests_trans w1 w2 w3 :
  only_requests w1 w2 -> only_requests w2 w3 -> only_requests w1 w3.
Proof.
  intros [Hf1 [u1 Hr1]] [Hf2 [u2 Hr2]]. split; [congruence|].
  exists (u2 ++ u1). by rewrite Hr2, Hr1, app_assoc.
Qed.

Ltac requests_only :=
  split; [done|];
  first [ by exists [] | by eexists [_] | by eexists [_; _] | by eexists [_; _; _] ].

Lemma tryOpenLibrary_only_requests isbn w r w' :
  tryOpenLibrary isbn w = (r, w') -> only_requests w w'.
Proof. unfold Fetcher.tryOpenLibrary. run_attempt; requests_only. Qed.

Lemma tryGoogleBooks_only_requests isbn w r w' :
  tryGoogleBooks isbn w = (r, w') -> only_requests w w'.
Proof. unfold Fetcher.tryGoogleBooks. run_attempt; requests_only. Qed.

Lemma tryOpenLibraryTitleSearch_only_requests title w r w' :
  tryOpenLibraryTitleSearch title w = (r, w') -> only_requests w w'.
Proof. unfold Fetcher.tryOpenLibraryTitleSearch. run_attempt; requests_only. Qed.

Lemma googleAuthor_only_requests isbn w r w' :
  googleAuthor isbn w = (r, w') -> only_requests w w'.
Proof. unfold Fetcher.googleAuthor. run_attempt; requests_only. Qed.

Lemma googleAuthor_author isbn w a w' :
  googleAuthor isbn w = (Ok (Some a), w') -> truthy a = true.
Proof.
  unfold Fetcher.googleAuthor. run_attempt.
  all: repeat match goal with H : _ && _ = true |- _ => apply andb_true_iff in H as [? ?] end.
  all: done.
Qed.

Lemma try_each_only_requests {A} (attempt : string -> M (option A)) isbns w r w' :
  (forall isbn w r w', attempt isbn w = (r, w') -> only_requests w w') ->
  Fetcher.try_each attempt isbns w = (r, w') -> only_requests w w'.
Proof.
  intros Hattempt. revert w. induction isbns as [|isbn isbns IH]; intros w; simpl.
  { intros [= <- <-]. apply only_requests_refl. }
  rewrite bind_run. destruct (attempt isbn w) as [[[x|]|e] w1] eqn:Hrun.
  - intros [= <- <-]. by eapply Hattempt.
  - intros Hrest. eapply only_requests_trans; [by eapply Hattempt|by apply IH].
  - intros [= <- <-]. by eapply Hattempt.
Qed.

Lemma try_each_Some {A} (P : A -> Prop) (attempt : string -> M (option A)) isbns w x w' :
  (forall isbn w x w', attempt isbn w = (Ok (Some x), w') -> P x) ->
  Fetcher.try_each attempt isbns w = (Ok (Some x), w') -> P x.
Proof.
  intros Hattempt. revert w. induction isbns as [|isbn isbns IH]; intros w; simpl; [done|].
  rewrite bind_run. destruct (attempt isbn w) as [[[y|]|e] w1] eqn:Hrun; [| |done].
  - intros [= <- <-]. by eapply Hattempt.
  - apply IH.
Qed.

Lemma tryGetAuthorOnly_only_requests isbns title w r w' :
  tryGetAuthorOnly isbns title w = (r, w') -> only_requests w w'.
Proof.
  unfold Fetcher.tryGetAuthorOnly. rewrite bind_run.
  destruct (Fetcher.try_each googleAuthor isbns w) as [[[a|]|e] w1] eqn:Hfirst.
  - intros [= <- <-]. eapply try_each_only_requests; [|done].
    apply googleAuthor_only_requests.
  - intros Hrest. eapply only_requests_trans.
    + eapply try_each_only_requests; [|done]. apply googleAuthor_only_requests.
    + revert Hrest. generalize w1. clear. intros w. run_attempt; requests_only.
  - intros [= <- <-]. eapply try_each_only_requests; [|done].
    apply googleAuthor_only_requests.
Qed.

Lemma tryGetAuthorOnly_author isbns title w a w' :
  tryGetAuthorOnly isbns title w = (Ok a, w') -> js_or a VNull = a.
Proof.
  unfold Fetcher.tryGetAuthorOnly. rewrite bind_run.
  destruct (Fetcher.try_each googleAuthor isbns w) as [[[x|]|e] w1] eqn:Hfirst; [| |done].
  - intros [= <- <-].
    apply (try_each_Some (fun a => truthy a = true)) in Hfirst;
      [|apply googleAuthor_author].
    unfold js_or. by rewrite Hfirst.
  - unfold Fetcher.first_or_null. run_attempt. all: by rewrite ?js_or_null_idem.
Qed.

(** *** The states of one book *)

Abbreviation cover_lookup := (cover_lookup JSON_parse network).
Abbreviation resolution := (resolution JSON_parse path_join network).

Lemma cover_lookup_only_requests b w found w1 :
  cover_lookup b w found w1 -> only_requests w w1.
Proof.
  destruct 1 as [c w1 H1|c w1 w2 H1 H2|found w1 w2 w3 H1 H2 H3].
  - eapply try_each_only_requests; [|exact H1]. apply tryOpenLibrary_only_requests.
  - eapply only_requests_trans.
    + eapply try_each_only_requests; [|exact H1]. apply tryOpenLibrary_only_requests.
    + eapply try_each_only_requests; [|exact H2]. apply tryGoogleBooks_only_requests.
  - eapply only_requests_trans; [eapply only_requests_trans|].
    + eapply try_each_only_requests; [|exact H1]. apply tryOpenLibrary_only_requests.
    + eapply try_each_only_requests; [|exact H2]. apply tryGoogleBooks_only_requests.
    + by eapply tryOpenLibraryTitleSearch_only_requests.
Qed.

Lemma cover_lookup_accepts b w c w1 :
  cover_lookup b w (Some c) w1 -> accepted network 1000 w1 c.
Proof.
  inversion 1 as [c' w1' H1|c' w1' w2 H1 H2|found w1' w2 w3 H1 H2 H3]; subst.
  - eapply try_each_accepts; [|exact H1]. apply tryOpenLibrary_accepts.
  - eapply (accepted_weaken 2000); [lia|].
    eapply try_each_accepts; [|exact H2]. apply tryGoogleBooks_accepts.
  - by eapply tryOpenLibraryTitleSearch_accepts.
Qed.

(** The loop body, when it returns, has converted the id and the title
    of the book, and has left the book in one of the states. *)
Lemma resolveBook_resolution existing b coversMap w m w' :
  resolveBook existing b coversMap w = (Ok m, w') ->
  String_throws (Fetcher.id b) = false /\ String_throws (Fetcher.title b) = false /\
  exists e, m = Fetcher.set_property (key_of b) e coversMap /\ resolution existing b w e w'.
Proof.
  unfold Fetcher.resolveBook. intros Hrun.
  apply bind_Ok_inv in Hrun as (key & w0 & Hkey & Hrun).
  unfold lift in Hkey. injection Hkey as Hkey <-.
  apply String_of_Ok_inv in Hkey as [Hid ->]. fold (key_of b) in Hrun.
  fold (image_file path_join b) in Hrun.
  apply bind_Ok_inv in Hrun as (existingEntry & w0 & Hentry & Hrun).
  unfold lift in Hentry. injection Hentry as Hentry <-.
  assert (existingEntry = prop_opt existing (key_of b)) as ->.
  { unfold prop_opt. by rewrite Hentry. }
  apply bind_Ok_inv in Hrun as (downloaded & w0 & Hdl & Hrun).
  unfold existsSync in Hdl. injection Hdl as <- <-.
  apply bind_Ok_inv in Hrun as ([] & w0 & Hlog & Hrun).
  apply console_log_inv in Hlog as [-> [?|[_ Htitle]]]; [done|].
  split; [done|]. split; [done|].
  case_bool_decide as Hfile.
  { injection Hrun as <- <-. eexists. split; [done|]. by apply SKIP_CACHED. }
  apply eq_None_not_Some in Hfile.
  fold (no_cover_with_author (prop_opt existing (key_of b))) in Hrun.
  destruct (no_cover_with_author (prop_opt existing (key_of b))) eqn:Hskip.
  { injection Hrun as <- <-. eexists. split; [done|]. by apply SKIP_NO_COVER_WITH_AUTHOR. }
  apply bind_Ok_inv in Hrun as (r1 & w1 & H1 & Hrun).
  apply bind_Ok_inv in Hrun as (r2 & w2 & H2 & Hrun).
  apply bind_Ok_inv in Hrun as (r3 & w3 & H3 & Hrun).
  assert (Hlookup : cover_lookup b w r3 w3).
  { destruct r1 as [c1|].
    - injection H2 as <- <-. injection H3 as <- <-.
      by apply TRY_COVER_BY_ISBN_PRIMARY_SOURCE.
    - destruct r2 as [c2|].
      + injection H3 as <- <-. by eapply TRY_COVER_BY_ISBN_SECONDARY_SOURCE.
      + by eapply TRY_COVER_BY_TITLE_SEARCH. }
  destruct r3 as [c|].
  - apply bind_Ok_inv in Hrun as ([] & w4 & Hwrite & Hrun).
    unfold writeFileSync in Hwrite. injection Hwrite as <-.
    injection Hrun as <- <-. eexists. split; [done|]. by apply COVER_FOUND.
  - apply bind_Ok_inv in Hrun as (a & w4 & Hauthor & Hrun).
    apply bind_Ok_inv in Hrun as ([] & w5 & Hlog & Hrun).
    assert (w5 = w4) as ->.
    { destruct (truthy a); [|by injection Hlog as <-].
      by apply console_log_inv in Hlog as [-> _]. }
    injection Hrun as <- <-. eexists. split; [done|].
    by eapply AUTHOR_ONLY_FALLBACK.
Qed.

(** What a state leaves: a skipped book leaves the world as it was; a
    cover is an accepted image, written to the image file after requests
    only; a book without a cover has issued requests only, and its author
    is a truthy value or [null]. *)
Lemma resolution_effect existing b w e w' :
  resolution existing b w e w' ->
  w' = w \/
  (exists c w1, only_requests w w1 /\ accepted network 1000 w1 c /\
                files w !! image_file path_join b = None /\
                e = Fetcher.entry (cover_name b) (Fetcher.author c) /\
                w' = {| files := <[image_file path_join b := Fetcher.buffer c]> (files w1);
                        requests := requests w1 |}) \/
  (exists a, only_requests w w' /\ js_or a VNull = a /\ e = Fetcher.entry VNull a).
Proof.
  destruct 1 as [Hfile|Hfile Hskip|c w1 Hfile Hskip Hlookup
                |a w1 w2 Hfile Hskip Hlookup Hauthor].
  - by left.
  - by left.
  - right. left. exists c, w1. repeat split; try done.
    + by eapply cover_lookup_only_requests.
    + by eapply cover_lookup_only_requests.
    + by apply cover_lookup_accepts in Hlookup as (? & _).
    + by apply cover_lookup_accepts in Hlookup as (_ & ? & _).
    + by apply cover_lookup_accepts in Hlookup as (_ & _ & ?).
  - right. right. exists a. split; [|split; [|done]].
    + eapply only_requests_trans; [by eapply cover_lookup_only_requests|].
      by eapply tryGetAuthorOnly_only_requests.
    + by eapply tryGetAuthorOnly_author.
Qed.

Abbreviation resolutions := (resolutions JSON_parse path_join network).

Lemma resolveAll_resolutions existing books coversMap w m w' :
  resolveAll existing books coversMap w = (Ok m, w') ->
  resolutions existing books coversMap w m w' /\
  forall b, b ∈ books ->
    String_throws (Fetcher.id b) = false /\ String_throws (Fetcher.title b) = false.
Proof.
  revert coversMap w. induction books as [|b books IH]; intros coversMap w; simpl.
  { intros [= <- <-]. split; [constructor|]. intros b Hb. by apply elem_of_nil in Hb. }
  intros Hrun. apply bind_Ok_inv in Hrun as (m1 & w1 & Hb & Hrun).
  apply resolveBook_resolution in Hb as (Hid & Htitle & e & -> & Hb).
  apply IH in Hrun as [Hrest Hconv]. split.
  - by econstructor.
  - intros b' Hb'. apply elem_of_cons in Hb' as [->|Hb']; [done|]. by apply Hconv.
Qed.

(** *** The map that [main] writes *)

Abbreviation build := (build_map JSON_parse path_join network).
Abbreviation persisted := (persisted_world JSON_stringify).

Lemma main_build w :
  main w = match build w with
           | (Ok m, w') => (Ok tt, persisted w' m)
           | (Throw e, w') => (Throw e, w')
           end.
Proof.
  unfold Fetcher.main, build_map. rewrite !bind_run.
  destruct (loadBooks w) as [[books|e] w1]; [|done]. rewrite !bind_run.
  destruct (loadExisting w1) as [[existing|e] w2]; [|done]. rewrite bind_run.
  by destruct (resolveAll existing books ∅ w2) as [[m|e] w3].
Qed.

Lemma build_inv w m w' :
  build w = (Ok m, w') ->
  exists books existing,
    loadBooks w = (Ok books, w) /\ loadExisting w = (Ok existing, w) /\
    resolveAll existing books ∅ w = (Ok m, w').
Proof.
  unfold build_map. intros Hrun.
  apply bind_Ok_inv in Hrun as (books & w1 & Hbooks & Hrun).
  pose proof (loadBooks_world _ _ _ Hbooks) as ->.
  apply bind_Ok_inv in Hrun as (existing & w2 & Hexisting & Hrun).
  destruct (loadExisting_returns w) as (v & Hv). rewrite Hv in Hexisting.
  injection Hexisting as <- <-. by exists books, v.
Qed.

Lemma main_inv w w' :
  main w = (Ok tt, w') ->
  exists m w1, build w = (Ok m, w1) /\ w' = persisted w1 m.
Proof.
  rewrite main_build. destruct (build w) as [[m|e] w1]; [|done].
  intros [= <-]. by exists m, w1.
Qed.

Lemma keys_object_of (m : gmap string value) k :
  k ∈ keys (Fetcher.object_of m) <-> is_Some (m !! k).
Proof.
  unfold keys, Fetcher.object_of. rewrite list_elem_of_fmap. split.
  - intros ([k' v] & -> & Hkv). apply elem_of_map_to_list in Hkv. by exists v.
  - intros [v Hv]. exists (k, v). split; [done|]. by apply elem_of_map_to_list.
Qed.

Lemma set_property_proto e (m : gmap string value) :
  Fetcher.set_property "__proto__" e m = m.
Proof. done. Qed.

Lemma set_property_other key e (m : gmap string value) :
  key <> "__proto__" -> Fetcher.set_property key e m = <[key := e]> m.
Proof.
  intros Hkey. unfold Fetcher.set_property.
  by destruct (String.eqb_spec key "__proto__").
Qed.

Lemma lookup_set_property key e (m : gmap string value) k :
  Fetcher.set_property key e m !! k
  = if bool_decide (key = k /\ k <> "__proto__") then Some e else m !! k.
Proof.
  unfold Fetcher.set_property. destruct (String.eqb_spec key "__proto__") as [->|Hkey].
  - rewrite bool_decide_eq_false_2; [done|]. by intros [<- ?].
  - case_bool_decide as Hk.
    + destruct Hk as [<- _]. by rewrite lookup_insert_eq.
    + rewrite lookup_insert_ne; [done|]. intros <-. by apply Hk.
Qed.

(** The keys of the map that the loop builds: the keys it started with,
    and the keys of the books other than [__proto__]. *)
Lemma resolutions_keys existing books m0 w m w' k :
  resolutions existing books m0 w m w' ->
  is_Some (m !! k) <->
  is_Some (m0 !! k) \/ (k <> "__proto__" /\ exists b, b ∈ books /\ key_of b = k).
Proof.
  induction 1 as [m w|b books m w e w1 m' w' Hb Hrest IH].
  - split; [by left|]. intros [?|(_ & b & Hb & _)]; [done|]. by apply elem_of_nil in Hb.
  - rewrite IH, lookup_set_property. case_bool_decide as Hk.
    + destruct Hk as [<- Hproto]. split.
      * intros _. right. split; [done|]. exists b. split; [by left|done].
      * intros _. left. by eexists.
    + split.
      * intros [?|(Hproto & b' & Hb' & Hk')]; [by left|]. right. split; [done|].
        exists b'. split; [by right|done].
      * intros [?|(Hproto & b' & Hb' & Hk')]; [by left|].
        apply elem_of_cons in Hb' as [->|Hb']; [by destruct Hk|].
        right. split; [done|]. by exists b'.
Qed.

Lemma resolution_recorded existing b w e w' :
  resolution existing b w e w' -> recorded_entry (key_of b) e.
Proof.
  destruct 1 as [Hfile|Hfile Hskip|c w1 Hfile Hskip Hlookup
                |a w1 w2 Hfile Hskip Hlookup Hauthor].
  - right. eexists. split; [done|]. apply js_or_null_idem.
  - left. unfold no_cover_with_author in Hskip.
    apply andb_true_iff in Hskip as [Hskip _]. by apply andb_true_iff in Hskip as [_ ?].
  - right. exists (Fetcher.author c). split; [done|].
    by apply cover_lookup_accepts in Hlookup as (_ & ? & _).
  - by left.
Qed.

Lemma resolutions_recorded existing books m0 w m w' :
  resolutions existing books m0 w m w' ->
  (forall k e, m0 !! k = Some e -> recorded_entry k e) ->
  forall k e, m !! k = Some e -> recorded_entry k e.
Proof.
  induction 1 as [m w|b books m w e w1 m' w' Hb Hrest IH]; intros Hm0; [done|].
  apply IH. intros k e'. rewrite lookup_set_property. case_bool_decide as Hk.
  - destruct Hk as [<- _]. intros [= <-]. by eapply resolution_recorded.
  - apply Hm0.
Qed.

(** *** The books that [loadBooks] keeps *)






(** *** The first request for a book *)






(** *** Image sizes *)

Lemma accepted_not_small minimum w c url earlier image :
  accepted network minimum w c ->
  requests w = url :: earlier ->
  network (length earlier) url = Some image ->
  (minimum < String.length image)%nat.
Proof.
  intros (Hlen & _ & url' & earlier' & Hreq & Hnet) Hreq' Hnet'.
  rewrite Hreq in Hreq'. injection Hreq' as -> ->.
  rewrite Hnet in Hnet'. by injection Hnet' as <-.
Qed.

(** A truthy cover id comes out of a document that is an object, in a
    list of documents that is an array or an object. *)
Lemma prop_opt_cover_i_object doc :
  truthy (prop_opt doc "cover_i") = true -> exists fields, doc = VObj fields.
Proof.
  destruct doc as [| | | |str|items|fields]; try done. by eexists.
Qed.

Lemma prop_opt_0_object docs fields :
  prop_opt docs "0" = VObj fields -> truthy docs = true.
Proof.
  destruct docs as [| | | |str|items|fields']; try done.
  unfold prop_opt. simpl. by repeat case_match.
Qed.

Lemma offered_cover_id_truthy searchData :
  truthy (offered_cover_id searchData) = true ->
  prop searchData "docs" = Ok (prop_opt searchData "docs") /\
  truthy (prop_opt searchData "docs") = true /\
  truthy (prop_opt (prop_opt searchData "docs") "0") = true.
Proof.
  unfold offered_cover_id. intros Hid.
  destruct (prop_opt_cover_i_object _ Hid) as [fields Hdoc].
  split; [|split].
  - apply prop_defined. by destruct searchData.
  - by eapply prop_opt_0_object.
  - by rewrite Hdoc.
Qed.

(** After a by-id image that is rejected as too small, [tryOpenLibrary]
    goes on to the direct image of the ISBN and returns what it offers. *)
Lemma tryOpenLibrary_falls_through isbn w text searchData small :
  network (length (requests w)) (search_url isbn) = Some text ->
  JSON_parse text = Some searchData ->
  truthy (offered_cover_id searchData) = true ->
  String_throws (offered_cover_id searchData) = false ->
  network (S (length (requests w))) (cover_url (ToString (offered_cover_id searchData)))
  = Some small ->
  (String.length small <= 1000)%nat ->
  tryOpenLibrary isbn w
  = (Ok (direct_cover (network (S (S (length (requests w)))) (direct_url isbn))),
     {| files := files w;
        requests := direct_url isbn
                    :: cover_url (ToString (offered_cover_id searchData))
                    :: search_url isbn :: requests w |}).
Proof.
  intros Hsearch Hparse Hid Hconv Hsmall Hlen.
  destruct (offered_cover_id_truthy _ Hid) as (Hdocs & Htdocs & Htdoc).
  unfold Fetcher.tryOpenLibrary, search_url, cover_url, direct_url, offered_cover_id in *.
  cbv [mbind M_bind mret M_ret try_catch lift Fetcher.fetchJson Fetcher.fetchUrl
       Fetcher.parse].
  cbn [files requests length].
  rewrite Hsearch, Hparse, Hdocs, Htdocs, Htdoc, Hid. cbn [andb].
  rewrite (String_of_converts _ Hconv). cbn [files requests length]. rewrite Hsmall.
  apply Nat.ltb_ge in Hlen. rewrite Hlen. cbn [files requests length].
  unfold direct_cover. destruct (network (S (S _)) _) as [direct|]; [|reflexivity].
  by destruct (1000 <? String.length direct)%nat; reflexivity.
Qed.

(** C8, as amended: a cover that an attempt returns is the image it
    fetched last, and it is longer than 1000 bytes for the Open Library
    attempts (by ISBN and by title) and longer than 2000 bytes for the
    Google Books attempt; after a by-id image of at most 1000 bytes
    [tryOpenLibrary] goes on to the direct image of the ISBN and returns
    it when it is longer than 1000 bytes; an attempt whose last image is
    not longer than its minimum returns no result, the loop over the
    ISBNs then goes on with the next ISBN, and the loop body of [main]
    with the next source, in the order of the states; every image file
    that the loop body writes is longer than 1000 bytes. *)
Theorem small_images_are_never_accepted :
  (forall isbn w c w',
     tryOpenLibrary isbn w = (Ok (Some c), w') -> accepted network 1000 w' c) /\
  (forall isbn w c w',
     tryGoogleBooks isbn w = (Ok (Some c), w') -> accepted network 2000 w' c) /\
  (forall title w c w',
     tryOpenLibraryTitleSearch title w = (Ok (Some c), w') -> accepted network 1000 w' c) /\
  (forall isbn w text searchData small,
     network (length (requests w)) (search_url isbn) = Some text ->
     JSON_parse text = Some searchData ->
     truthy (offered_cover_id searchData) = true ->
     String_throws (offered_cover_id searchData) = false ->
     network (S (length (requests w))) (cover_url (ToString (offered_cover_id searchData)))
     = Some small ->
     (String.length small <= 1000)%nat ->
     tryOpenLibrary isbn w
     = (Ok (direct_cover (network (S (S (length (requests w)))) (direct_url isbn))),
        {| files := files w;
           requests := direct_url isbn
                       :: cover_url (ToString (offered_cover_id searchData))
                       :: search_url isbn :: requests w |})) /\
  (forall isbn w r w' url earlier image,
     tryOpenLibrary isbn w = (Ok r, w') ->
     requests w' = url :: earlier -> network (length earlier) url = Some image ->
     (String.length image <= 1000)%nat -> r = None) /\
  (forall isbn w r w' url earlier image,
     tryGoogleBooks isbn w = (Ok r, w') ->
     requests w' = url :: earlier -> network (length earlier) url = Some image ->
     (String.length image <= 2000)%nat -> r = None) /\
  (forall title w r w' url earlier image,
     tryOpenLibraryTitleSearch title w = (Ok r, w') ->
     requests w' = url :: earlier -> network (length earlier) url = Some image ->
     (String.length image <= 1000)%nat -> r = None) /\
  (forall (attempt : string -> M (option Fetcher.cover)) isbn rest w w1,
     attempt isbn w = (Ok None, w1) ->
     Fetcher.try_each attempt (isbn :: rest) w = Fetcher.try_each attempt rest w1) /\
  (forall existing b coversMap w m w',
     resolveBook existing b coversMap w = (Ok m, w') ->
     exists e, resolution existing b w e w') /\
  (forall existing b coversMap w m w' p image,
     resolveBook existing b coversMap w = (Ok m, w') ->
     files w' !! p = Some image -> files w !! p <> Some image ->
     (1000 < String.length image)%nat).
Proof.
  split; [exact tryOpenLibrary_accepts|].
  split; [exact tryGoogleBooks_accepts|].
  split; [exact tryOpenLibraryTitleSearch_accepts|].
  split; [exact tryOpenLibrary_falls_through|].
  split.
  { intros isbn w [c|] w' url earlier image Hrun Hreq Hnet Hsmall; [|done].
    apply tryOpenLibrary_accepts in Hrun.
    pose proof (accepted_not_small _ _ _ _ _ _ Hrun Hreq Hnet). lia. }
  split.
  { intros isbn w [c|] w' url earlier image Hrun Hreq Hnet Hsmall; [|done].
    apply tryGoogleBooks_accepts in Hrun.
    pose proof (accepted_not_small _ _ _ _ _ _ Hrun Hreq Hnet). lia. }
  split.
  { intros title w [c|] w' url earlier image Hrun Hreq Hnet Hsmall; [|done].
    apply tryOpenLibraryTitleSearch_accepts in Hrun.
    pose proof (accepted_not_small _ _ _ _ _ _ Hrun Hreq Hnet). lia. }
  split.
  { intros attempt isbn rest w w1 Hrun. simpl. by rewrite bind_run, Hrun. }
  split.
  { intros existing b coversMap w m w' Hrun.
    apply resolveBook_resolution in Hrun as (_ & _ & e & _ & Hres). by exists e. }
  intros existing b coversMap w m w' p image Hrun Hafter Hbefore.
  apply resolveBook_resolution in Hrun as (_ & _ & e & _ & Hres).
  destruct (resolution_effect _ _ _ _ _ Hres)
    as [->|[(c & w1 & [Hfiles _] & Hacc & _ & _ & ->)|(a & [Hfiles _] & _)]].
  - done.
  - simpl in Hafter. destruct (decide (image_file path_join b = p)) as [<-|Hp].
    + rewrite lookup_insert_eq in Hafter. injection Hafter as <-. by destruct Hacc.
    + rewrite lookup_insert_ne in Hafter by done. by rewrite Hfiles in Hafter.
  - by rewrite Hfiles in Hafter.
Qed.

(** *** A second run *)

Lemma assoc_list_to_map k (l : list (string * value)) :
  assoc k l = default VUndef ((list_to_map l : gmap string value) !! k).
Proof.
  induction l as [|[k' v] l IH]; simpl; [by rewrite lookup_empty|].
  destruct (String.eqb_spec k k') as [->|Hk].
  - by rewrite lookup_insert_eq.
  - by rewrite lookup_insert_ne.
Qed.

Lemma prop_object_of (m : gmap string value) k :
  prop (Fetcher.object_of m) k = Ok (default VUndef (m !! k)).
Proof.
  unfold Fetcher.object_of. simpl.
  by rewrite assoc_list_to_map, list_to_map_to_list.
Qed.

Lemma entry_fields p a :
  prop_opt (Fetcher.entry p a) "path" = p /\ prop_opt (Fetcher.entry p a) "author" = a.
Proof. done. Qed.

(** A settled book is skipped: its entry is assigned again as it was, and
    the world stays as it is. *)
Lemma resolveBook_settled (m1 : gmap string value) b coversMap w :
  String_throws (Fetcher.id b) = false ->
  String_throws (Fetcher.title b) = false ->
  (forall e, m1 !! key_of b = Some e -> recorded_entry (key_of b) e) ->
  (key_of b <> "__proto__" -> is_Some (m1 !! key_of b)) ->
  settled path_join w m1 b = true ->
  resolveBook (Fetcher.object_of m1) b coversMap w
  = (Ok (Fetcher.set_property (key_of b) (default VUndef (m1 !! key_of b)) coversMap), w).
Proof.
  intros Hid Htitle Hrec Hkey Hsettled. unfold settled in Hsettled.
  unfold Fetcher.resolveBook.
  rewrite bind_run. unfold lift at 1. rewrite (String_of_converts _ Hid).
  fold (key_of b). fold (image_file path_join b).
  rewrite bind_run. unfold lift at 1. rewrite prop_object_of.
  rewrite bind_run. unfold existsSync at 1.
  rewrite bind_run. unfold Fetcher.console_log at 1, lift at 1.
  rewrite (String_of_converts _ Htitle). simpl.
  case_bool_decide as Hfile.
  - destruct (m1 !! key_of b) as [e|] eqn:He; simpl in *.
    + destruct (Hrec e eq_refl) as [Hnull|(a & -> & Ha)]; [by rewrite Hnull in Hsettled|].
      destruct (entry_fields (VStr ("covers/" +:+ key_of b +:+ ".jpg")) a) as [_ ->].
      by rewrite Ha.
    + unfold Fetcher.set_property.
      destruct (String.eqb_spec (key_of b) "__proto__") as [Hproto|Hproto]; [done|].
      by destruct (Hkey Hproto).
  - fold (no_cover_with_author (default VUndef (m1 !! key_of b))). by rewrite Hsettled.
Qed.

Lemma resolveAll_settled (m1 : gmap string value) books coversMap w :
  (forall k e, m1 !! k = Some e -> recorded_entry k e) ->
  (forall b, b ∈ books ->
     String_throws (Fetcher.id b) = false /\ String_throws (Fetcher.title b) = false) ->
  (forall b, b ∈ books -> key_of b <> "__proto__" -> is_Some (m1 !! key_of b)) ->
  forallb (settled path_join w m1) books = true ->
  coversMap ⊆ m1 ->
  exists m, resolveAll (Fetcher.object_of m1) books coversMap w = (Ok m, w) /\
            m ⊆ m1 /\
            forall k, is_Some (coversMap !! k) \/
                      (k <> "__proto__" /\ exists b, b ∈ books /\ key_of b = k) ->
                      is_Some (m !! k).
Proof.
  intros Hrec. revert coversMap.
  induction books as [|b books IH]; intros coversMap Hconv Hkeys Hsettled Hsub; simpl.
  { exists coversMap. repeat split; try done.
    intros k [?|(_ & b & Hb & _)]; [done|]. by apply elem_of_nil in Hb. }
  simpl in Hsettled. apply andb_true_iff in Hsettled as [Hb Hrest].
  destruct (Hconv b) as [Hid Htitle]; [by left|].
  rewrite bind_run, (resolveBook_settled m1 b) by (eauto; apply Hkeys; by left).
  set (e := default VUndef (m1 !! key_of b)).
  destruct (IH (Fetcher.set_property (key_of b) e coversMap)) as (m & Hrun & Hm & Hdom).
  - intros b' Hb'. apply Hconv. by right.
  - intros b' Hb'. apply Hkeys. by right.
  - done.
  - unfold Fetcher.set_property.
    destruct (String.eqb_spec (key_of b) "__proto__") as [Hproto|Hproto]; [done|].
    destruct (Hkeys b) as [e' He']; [by left|done|].
    subst e. rewrite He'. simpl. by apply insert_subseteq_l.
  - exists m. repeat split; try done.
    intros k [Hk|(Hproto & b' & Hb' & Hk)].
    + apply Hdom. left. rewrite lookup_set_property. case_bool_decide; [by eexists|done].
    + apply elem_of_cons in Hb' as [->|Hb'].
      * apply Hdom. left. rewrite lookup_set_property.
        rewrite bool_decide_eq_true_2 by done. by eexists.
      * apply Hdom. right. split; [done|]. by exists b'.
Qed.

Lemma loadBooks_same_export w w' :
  files w' !! Fetcher.BOOKBEAT_FILE = files w !! Fetcher.BOOKBEAT_FILE ->
  (loadBooks w').1 = (loadBooks w).1.
Proof.
  intros Hsame. unfold Fetcher.loadBooks, readFileSync, Fetcher.parse, lift.
  rewrite !bind_run, Hsame.
  destruct (files w !! Fetcher.BOOKBEAT_FILE) as [text|]; [|done].
  rewrite !bind_run. by destruct (JSON_parse text).
Qed.

Lemma loadExisting_persisted w m :
  JSON_parse (JSON_stringify (Fetcher.object_of m)) = Some (Fetcher.object_of m) ->
  loadExisting (persisted w m) = (Ok (Fetcher.object_of m), persisted w m).
Proof.
  intros Hparse.
  unfold Fetcher.loadExisting, existsSync, try_catch, readFileSync, Fetcher.parse, lift.
  rewrite bind_run. simpl. rewrite lookup_insert_eq.
  rewrite bool_decide_eq_true_2 by by eexists.
  rewrite bind_run. simpl. rewrite lookup_insert_eq. by rewrite Hparse.
Qed.

Lemma persisted_twice w m : persisted (persisted w m) m = persisted w m.
Proof. unfold persisted_world. simpl. by rewrite insert_insert_eq. Qed.

(** C1, as amended: after a run that leaves every book settled (its image
    file on disk and a path in its entry, or no image file and an entry
    with [path] null and an author), a second run on the same export,
    with [covers.json] and the image files as the first run left them,
    skips every book as downloaded or as without cover but with author,
    and ends in the world in which it started: it issues no request,
    writes no image, and rewrites [covers.json] with the map of the first
    run. *)
Theorem second_run_of_settled_books_changes_nothing w0 w0' m1 books :
  loadBooks w0 = (Ok books, w0) ->
  build w0 = (Ok m1, w0') ->
  files (persisted w0' m1) !! Fetcher.BOOKBEAT_FILE = files w0 !! Fetcher.BOOKBEAT_FILE ->
  JSON_parse (JSON_stringify (Fetcher.object_of m1)) = Some (Fetcher.object_of m1) ->
  forallb (settled path_join (persisted w0' m1) m1) books = true ->
  main w0 = (Ok tt, persisted w0' m1) /\
  (forall b, b ∈ books ->
     is_Some (files (persisted w0' m1) !! image_file path_join b) \/
     no_cover_with_author (prop_opt (Fetcher.object_of m1) (key_of b)) = true) /\
  build (persisted w0' m1) = (Ok m1, persisted w0' m1) /\
  main (persisted w0' m1) = (Ok tt, persisted w0' m1).
Proof.
  intros Hbooks Hbuild Hexport Hjson Hsettled.
  assert (Hfirst : main w0 = (Ok tt, persisted w0' m1)).
  { by rewrite main_build, Hbuild. }
  split; [done|].
  split.
  { intros b Hb. rewrite forallb_forall in Hsettled.
    apply list_elem_of_In, Hsettled in Hb. unfold settled in Hb.
    case_bool_decide; [by left|]. right.
    unfold prop_opt. by rewrite prop_object_of. }
  assert (Hsecond : build (persisted w0' m1) = (Ok m1, persisted w0' m1)).
  { apply build_inv in Hbuild as (books' & existing & Hbooks' & _ & Hall).
    rewrite Hbooks in Hbooks'. injection Hbooks' as <-.
    apply resolveAll_resolutions in Hall as [Hall Hconv].
    assert (Hrec : forall k e, m1 !! k = Some e -> recorded_entry k e).
    { eapply resolutions_recorded; [exact Hall|]. intros k e Hk.
      by rewrite lookup_empty in Hk. }
    assert (Hkeys : forall k, is_Some (m1 !! k) <->
                              k <> "__proto__" /\ exists b, b ∈ books /\ key_of b = k).
    { intros k. rewrite (resolutions_keys _ _ _ _ _ _ k Hall), lookup_empty.
      split; [|by right]. intros [[? ?]|?]; done. }
    destruct (resolveAll_settled m1 books ∅ (persisted w0' m1)) as (m & Hrun & Hm & Hdom).
    - done.
    - done.
    - intros b Hb Hproto. apply Hkeys. split; [done|]. by exists b.
    - done.
    - apply map_empty_subseteq.
    - assert (m = m1) as ->.
      { apply subseteq_dom_eq; [done|]. intros k Hk.
        apply elem_of_dom in Hk. apply elem_of_dom, Hdom. right. by apply Hkeys. }
      unfold build_map. rewrite bind_run.
      pose proof (loadBooks_same_export w0 (persisted w0' m1) Hexport) as Hsame.
      destruct (loadBooks (persisted w0' m1)) as [r w2] eqn:Hload.
      pose proof (loadBooks_world _ _ _ Hload) as ->.
      rewrite Hbooks in Hsame. simpl in Hsame. subst r.
      rewrite bind_run, (loadExisting_persisted _ _ Hjson). done. }
  split; [done|].
  by rewrite main_build, Hsecond, persisted_twice.
Qed.

End Pipeline.

(** ** Runs on the sample host *)

(** The sample export resolved twice over the sample network: Dune gets
    its cover, Emma an author only, and the second run changes nothing. *)
Lemma second_run_sample_witness :
  Fetcher.main Sample.JSON_parse Sample.JSON_stringify Sample.path_join sample_network
    sample_world
  = (Ok tt, persisted_world Sample.JSON_stringify sample_world_built sample_map) /\
  (forall b, b ∈ sample_books ->
     is_Some (files (persisted_world Sample.JSON_stringify sample_world_built sample_map)
              !! image_file Sample.path_join b) \/
     no_cover_with_author (prop_opt (Fetcher.object_of sample_map) (key_of b)) = true) /\
  build_map Sample.JSON_parse Sample.path_join sample_network
    (persisted_world Sample.JSON_stringify sample_world_built sample_map)
  = (Ok sample_map, persisted_world Sample.JSON_stringify sample_world_built sample_map) /\
  Fetcher.main Sample.JSON_parse Sample.JSON_stringify Sample.path_join sample_network
    (persisted_world Sample.JSON_stringify sample_world_built sample_map)
  = (Ok tt, persisted_world Sample.JSON_stringify sample_world_built sample_map).
Proof.
  apply (second_run_of_settled_books_changes_nothing
           Sample.JSON_parse Sample.JSON_stringify Sample.path_join sample_network
           sample_world sample_world_built sample_map sample_books).
  - vm_compute. reflexivity.
  - vm_compute. reflexivity.
  - vm_compute. reflexivity.
  - vm_compute. reflexivity.
  - vm_compute. reflexivity.
Defined.

(** C1, as stated, fails: on a network where every request fails, the
    first run records [path] null and [author] null for both books of the
    sample export, after ten requests; the second run, with [covers.json]
    as the first run left it, looks both books up again, with ten more
    requests. *)
Lemma second_run_repeats_lookups_that_found_nothing :
  exists w1 w2,
    Fetcher.main Sample.JSON_parse Sample.JSON_stringify Sample.path_join failing_network
      (world_of export_text None) = (Ok tt, w1) /\
    files w1 !! Fetcher.COVERS_MAP_FILE
    = Some (Sample.json "{'1':{'path':null,'author':null},'2':{'path':null,'author':null}}") /\
    length (requests w1) = 10%nat /\
    Fetcher.main Sample.JSON_parse Sample.JSON_stringify Sample.path_join failing_network
      w1 = (Ok tt, w2) /\
    files w2 = files w1 /\
    length (requests w2) = 20%nat.
Proof.
  eexists _, _. split; [vm_compute; reflexivity|].
  split; [vm_compute; reflexivity|].
  split; [vm_compute; reflexivity|].
  split; [vm_compute; reflexivity|].
  split; vm_compute; reflexivity.
Qed.

(** On the sample world the prior [covers.json] has the key 99, with a
    path; the rewritten file has the keys of the two books only. *)
Example prior_entry_of_absent_book_is_dropped :
  (exists existing,
     Fetcher.loadExisting Sample.JSON_parse sample_world = (Ok existing, sample_world) /\
     keys existing = ["99"]) /\
  files (persisted_world Sample.JSON_stringify sample_world_built sample_map)
    !! Fetcher.COVERS_MAP_FILE
  = Some (Sample.json
            ("{'1':{'path':'covers/1.jpg','author':'Frank Herbert'},"
             +:+ "'2':{'path':null,'author':'Jane Austen'}}")).
Proof.
  split; [eexists; split|]; vm_compute; reflexivity.
Qed.



(** C9, the failing inputs.  A response of a source can abort the run:
    when the author that the author lookup returns is an object with a
    property [toString], the [console.log] of the author throws outside
    every [try], after nine requests, and no [covers.json] is written.
    A [covers.json] that holds [null] aborts the run at the first book,
    while one that does not parse is ignored, as the [try] around its
    [JSON.parse] means it to be.  An export in the flat shape, which
    [processBooks] of the page accepts, aborts the run in [loadBooks]. *)
Theorem run_aborts_on_a_response_and_on_tolerated_files :
  (exists w',
     Fetcher.main Sample.JSON_parse Sample.JSON_stringify Sample.path_join
       unprintable_author_network (world_of export_text None)
     = (Throw TypeError, w') /\
     length (requests w') = 9%nat /\
     files w' !! Fetcher.COVERS_MAP_FILE = None) /\
  (Fetcher.main Sample.JSON_parse Sample.JSON_stringify Sample.path_join failing_network
     (world_of export_text (Some "null"))
   = (Throw TypeError, world_of export_text (Some "null")) /\
   exists w',
     Fetcher.main Sample.JSON_parse Sample.JSON_stringify Sample.path_join failing_network
       (world_of export_text (Some "{")) = (Ok tt, w')) /\
  (Fetcher.main Sample.JSON_parse Sample.JSON_stringify Sample.path_join failing_network
     (world_of flat_text None)
   = (Throw TypeError, world_of flat_text None) /\
   Script.processBooks Sample.Date_new Sample.getFullYear
     (default VUndef (Sample.JSON_parse flat_text))
   = Ok ([], [])).
Proof.
  split; [eexists; split; [|split]; vm_compute; reflexivity|].
  split; [split; [|eexists]; vm_compute; reflexivity|].
  split; vm_compute; reflexivity.
Qed.

(** C10, the failing input: the book of this export has the identifier
    [__proto__]; [loadBooks] returns it, the run looks it up with five
    requests and completes, and the assignment of its entry changes the
    prototype of the map instead of creating a property: the
    [covers.json] that the run writes is the empty object, without the
    key of the book. *)
Theorem book_with_id_proto_is_not_recorded :
  (exists books,
     Fetcher.loadBooks Sample.JSON_parse (world_of proto_text None)
     = (Ok books, world_of proto_text None) /\
     map key_of books = ["__proto__"]) /\
  exists w',
    Fetcher.main Sample.JSON_parse Sample.JSON_stringify Sample.path_join failing_network
      (world_of proto_text None) = (Ok tt, w') /\
    length (requests w') = 5%nat /\
    files w' !! Fetcher.COVERS_MAP_FILE = Some "{}".
Proof.
  split; [eexists; split; vm_compute; reflexivity|].
  eexists. split; [|split]; vm_compute; reflexivity.
Qed.

(** C8, as stated, fails: on this network the image of the cover id has
    500 bytes and is rejected, yet the attempt yields a result, the
    direct image of the ISBN, which has 1500 bytes. *)
Lemma rejected_by_id_image_then_direct_image :
  fallthrough_network 1 (cover_url "42") = Some (image_of_size 500) /\
  exists w',
    Fetcher.tryOpenLibrary Sample.JSON_parse fallthrough_network "9780441013593"
      (world_of export_text None)
    = (Ok (Some {| Fetcher.buffer := image_of_size 1500; Fetcher.author := VNull |}), w') /\
    requests w' = [direct_url "9780441013593"; cover_url "42"; search_url "9780441013593"].
Proof.
  split; [vm_compute; reflexivity|].
  eexists. split; vm_compute; reflexivity.
Qed.

(** The attempt for Dune where the image of the cover id is too small:
    it goes on to the direct image. *)
Lemma small_images_sample_witness :
  Fetcher.tryOpenLibrary Sample.JSON_parse fallthrough_network "9780441013593"
    (world_of export_text None)
  = (Ok (direct_cover (fallthrough_network 2 (direct_url "9780441013593"))),
     {| files := files (world_of export_text None);
        requests := [direct_url "9780441013593"; cover_url "42";
                     search_url "9780441013593"] |}).
Proof.
  destruct (small_images_are_never_accepted
              Sample.JSON_parse Sample.path_join fallthrough_network)
    as (_ & _ & _ & Hfalls & _).
  apply (Hfalls "9780441013593" (world_of export_text None)
           (Sample.json "{'docs':[{'cover_i':42,'author_name':['Frank Herbert']}]}")
           (VObj [("docs", VArr [VObj [("cover_i", VNum 42);
                                       ("author_name", VArr [VStr "Frank Herbert"])]])])
           (image_of_size 500)).
  - vm_compute. reflexivity.
  - vm_compute. reflexivity.
  - reflexivity.
  - reflexivity.
  - vm_compute. reflexivity.
  - vm_compute. lia.
Defined.

(** The first attempt for Dune on the sample network returns the cover of
    1500 bytes; where both Open Library images have 1000 bytes, the image
    by cover id and then the image by ISBN are turned down, and the attempt
    returns no result after its three requests. *)
Example tryOpenLibrary_sample :
  (exists w',
     Fetcher.tryOpenLibrary Sample.JSON_parse sample_network "9780441013593" sample_world
     = (Ok (Some {| Fetcher.buffer := image_of_size 1500;
                    Fetcher.author := VStr "Frank Herbert" |}), w')) /\
  (exists w',
     Fetcher.tryOpenLibrary Sample.JSON_parse small_image_network "9780441013593"
       sample_world
     = (Ok None, w') /\
     requests w'
     = ["https://covers.openlibrary.org/b/isbn/9780441013593-L.jpg";
        "https://covers.openlibrary.org/b/id/42-L.jpg";
        "https://openlibrary.org/search.json?isbn=9780441013593&limit=1"]).
Proof.
  split; [eexists; vm_compute; reflexivity|].
  eexists. split; vm_compute; reflexivity.
Qed.

(** * Further properties *)

(** ** The year sections of the page *)

Lemma distinct_snoc l y :
  Script.distinct (l ++ [y])
  = if bool_decide (y ∈ Script.distinct l) then Script.distinct l
    else Script.distinct l ++ [y].
Proof. unfold Script.distinct. by rewrite fold_left_app. Qed.

Lemma distinct_elem_of l y : y ∈ Script.distinct l <-> y ∈ l.
Proof.
  induction l as [|x l IH] using rev_ind.
  { done. }
  rewrite distinct_snoc. case_bool_decide as Hx.
  - rewrite IH, elem_of_app, list_elem_of_singleton. split; [by left|].
    intros [?| ->]; [done|]. by apply IH.
  - rewrite !elem_of_app, IH. done.
Qed.

Lemma distinct_NoDup l : NoDup (Script.distinct l).
Proof.
  induction l as [|x l IH] using rev_ind.
  { constructor. }
  rewrite distinct_snoc. case_bool_decide as Hx; [done|].
  apply NoDup_app. repeat split; [done| |apply NoDup_singleton].
  intros y Hy ->%list_elem_of_singleton. done.
Qed.

Lemma books_of_year_snoc y books b :
  books_of_year y (books ++ [b])
  = if bool_decide (Script.year b = y) then books_of_year y books ++ [b]
    else books_of_year y books.
Proof.
  unfold books_of_year. rewrite List.filter_app. simpl.
  case_bool_decide; [done|]. by rewrite app_nil_r.
Qed.

Lemma books_of_year_nil y books :
  y ∉ map Script.year books -> books_of_year y books = [].
Proof.
  induction books as [|b books IH]; [done|]. simpl. intros Hy.
  rewrite not_elem_of_cons in Hy. destruct Hy as [Hb Hy].
  case_bool_decide; [congruence|]. by apply IH.
Qed.

(** After the [forEach], [groups] has one property per year, created in
    the order in which the years first occur, and it holds the books of
    that year in the order of the list. *)
Lemma groups_spec books :
  fold_left Script.push_group books []
  = map (fun y => (y, books_of_year y books)) (Script.distinct (map Script.year books)).
Proof.
  induction books as [|b books IH] using rev_ind; [done|].
  rewrite fold_left_app, IH, map_app. simpl. rewrite distinct_snoc.
  unfold Script.push_group.
  assert (Hex : existsb (fun g : option Z * list Script.bookRecord =>
                           bool_decide (g.1 = Script.year b))
                  (map (fun y => (y, books_of_year y books))
                     (Script.distinct (map Script.year books)))
                = bool_decide (Script.year b ∈ Script.distinct (map Script.year books))).
  { apply eq_true_iff_eq. rewrite existsb_exists, bool_decide_eq_true. split.
    - intros ([y l] & Hin & Hy). apply in_map_iff in Hin as (y' & [= <- <-] & Hin).
      apply bool_decide_eq_true in Hy. simpl in Hy. subst. by apply list_elem_of_In.
    - intros Hin. exists (Script.year b, books_of_year (Script.year b) books). split.
      + apply in_map_iff. eexists. split; [done|]. by apply list_elem_of_In.
      + by apply bool_decide_eq_true. }
  rewrite Hex. case_bool_decide as Hin.
  - rewrite map_map. apply map_ext. intros y. simpl. rewrite books_of_year_snoc.
    case_bool_decide as Hy; case_bool_decide as Hy'; congruence.
  - rewrite map_app. simpl. f_equal.
    + apply map_ext_in. intros y Hy. rewrite books_of_year_snoc.
      case_bool_decide as Hyb; [|done]. subst y. by apply list_elem_of_In in Hy.
    + rewrite books_of_year_snoc, bool_decide_eq_true_2 by done.
      rewrite books_of_year_nil; [done|]. by rewrite <- distinct_elem_of.
Qed.

Lemma group_of_spec books y :
  Script.group_of (fold_left Script.push_group books []) y = books_of_year y books.
Proof.
  rewrite groups_spec. unfold Script.group_of.
  destruct (decide (y ∈ Script.distinct (map Script.year books))) as [Hin|Hin].
  - induction (Script.distinct (map Script.year books)) as [|x l IH]; [by apply elem_of_nil in Hin|].
    simpl. case_bool_decide as Hx; [by subst|].
    apply IH. apply elem_of_cons in Hin as [-> |?]; done.
  - rewrite books_of_year_nil by by rewrite <- distinct_elem_of.
    induction (Script.distinct (map Script.year books)) as [|x l IH]; [done|].
    simpl. rewrite not_elem_of_cons in Hin. destruct Hin as [Hx Hin].
    case_bool_decide; [congruence|]. by apply IH.
Qed.

Lemma Object_keys_Permutation created : Script.Object_keys created ≡ₚ created.
Proof.
  unfold Script.Object_keys. rewrite array_sort_Permutation.
  induction created as [|y l IH]; [done|]. simpl.
  destruct (Script.is_array_index y); simpl.
  - by rewrite IH.
  - rewrite <- Permutation_middle. by rewrite IH.
Qed.

(** The years of the sections. *)
Lemma groupByYear_years books :
  map Script.group_year (Script.groupByYear books)
  = Script.array_sort Script.by_number_desc
      (Script.Object_keys (Script.distinct (map Script.year books))).
Proof.
  unfold Script.groupByYear. rewrite map_map. simpl. rewrite map_id.
  rewrite groups_spec, map_map. simpl. by rewrite map_id.
Qed.

Lemma groupByYear_years_Permutation books :
  map Script.group_year (Script.groupByYear books)
  ≡ₚ Script.distinct (map Script.year books).
Proof.
  by rewrite groupByYear_years, array_sort_Permutation, Object_keys_Permutation.
Qed.

Lemma groupByYear_books books g :
  g ∈ Script.groupByYear books ->
  Script.group_books g = books_of_year (Script.group_year g) books /\
  Script.group_year g ∈ map Script.year books.
Proof.
  intros Hg. split.
  - unfold Script.groupByYear in Hg. apply list_elem_of_fmap in Hg as (y & -> & _).
    simpl. apply group_of_spec.
  - apply distinct_elem_of. rewrite <- groupByYear_years_Permutation.
    apply list_elem_of_fmap. by exists g.
Qed.

Lemma books_of_year_elem_of y books b :
  b ∈ books_of_year y books <-> b ∈ books /\ Script.year b = y.
Proof.
  unfold books_of_year. rewrite list_elem_of_In, filter_In, <- list_elem_of_In.
  by rewrite bool_decide_eq_true.
Qed.

(** X1: the sections of [groupByYear] partition the books by year: no year
    has two sections, no section is empty, a section holds exactly the
    books of its year, in the order of the list, and every book is in the
    section of its year. *)
Theorem groupByYear_partitions_by_year (books : list Script.bookRecord) :
  NoDup (map Script.group_year (Script.groupByYear books)) /\
  (forall g, g ∈ Script.groupByYear books ->
     Script.group_books g <> [] /\
     Script.group_books g = books_of_year (Script.group_year g) books) /\
  (forall b, b ∈ books ->
     exists g, g ∈ Script.groupByYear books /\
               Script.group_year g = Script.year b /\ b ∈ Script.group_books g).
Proof.
  split; [|split].
  - rewrite groupByYear_years_Permutation. apply distinct_NoDup.
  - intros g Hg. destruct (groupByYear_books books g Hg) as [Hbooks Hyear].
    split; [|done]. rewrite Hbooks.
    apply list_elem_of_fmap in Hyear as (b & Hb & Hin).
    intros Hnil. assert (b ∈ books_of_year (Script.group_year g) books) as Hbin.
    { by apply books_of_year_elem_of. }
    rewrite Hnil in Hbin. by apply elem_of_nil in Hbin.
  - intros b Hb.
    assert (Script.year b ∈ map Script.group_year (Script.groupByYear books)) as Hy.
    { rewrite groupByYear_years_Permutation. apply distinct_elem_of.
      apply list_elem_of_fmap. by exists b. }
    apply list_elem_of_fmap in Hy as (g & Hg & Hin). exists g.
    split; [done|]. split; [done|].
    destruct (groupByYear_books books g Hin) as [-> _].
    by apply books_of_year_elem_of.
Qed.

Lemma sort_insert_ordered {A} (cmp : A -> A -> Z) (R : A -> A -> Prop) (P : A -> Prop) x l :
  (forall a b, P a -> P b -> (cmp a b <=? 0) = true -> R a b) ->
  (forall a b, P a -> P b -> (cmp a b <=? 0) = false -> R b a) ->
  (forall a b c, R a b -> R b c -> R a c) ->
  P x -> Forall P l -> StronglySorted R l ->
  StronglySorted R (Script.sort_insert cmp x l).
Proof.
  intros Hle Hgt Htrans Hx Hl Hsorted.
  induction Hsorted as [|y l Hs IH Hy]; simpl.
  { repeat constructor. }
  apply Forall_cons in Hl as [HPy Hl].
  destruct (cmp x y <=? 0) eqn:Hcmp.
  - constructor; [by constructor|].
    constructor; [by apply Hle|].
    eapply Forall_impl; [exact Hy|]. intros z Hz. simpl in Hz.
    eapply Htrans; [|exact Hz]. by apply Hle.
  - constructor; [by apply IH|].
    rewrite sort_insert_Permutation. constructor; [by apply Hgt|done].
Qed.

Lemma array_sort_ordered {A} (cmp : A -> A -> Z) (R : A -> A -> Prop) (P : A -> Prop) l :
  (forall a b, P a -> P b -> (cmp a b <=? 0) = true -> R a b) ->
  (forall a b, P a -> P b -> (cmp a b <=? 0) = false -> R b a) ->
  (forall a b c, R a b -> R b c -> R a c) ->
  Forall P l -> StronglySorted R (Script.array_sort cmp l).
Proof.
  intros Hle Hgt Htrans. induction l as [|x l IH]; intros Hl; simpl; [constructor|].
  apply Forall_cons in Hl as [Hx Hl].
  apply (sort_insert_ordered cmp R P); try done; [|by apply IH].
  by rewrite array_sort_Permutation.
Qed.

Lemma StronglySorted_lookup {A} (R : A -> A -> Prop) l i j a b :
  StronglySorted R l -> (i < j)%nat -> l !! i = Some a -> l !! j = Some b -> R a b.
Proof.
  intros Hs. revert i j. induction Hs as [|x l Hs IH Hx]; intros i j Hij Ha Hb; [done|].
  destruct j as [|j]; [lia|]. destruct i as [|i]; simpl in *.
  - injection Ha as <-. eapply Forall_forall in Hx; [exact Hx|].
    by eapply list_elem_of_lookup_2.
  - eapply (IH i j); [lia|done..].
Qed.

Lemma groupByYear_descending (books : list Script.bookRecord) :
  (forall b, b ∈ books -> is_Some (Script.year b)) ->
  forall i j g1 g2,
    (i < j)%nat ->
    Script.groupByYear books !! i = Some g1 ->
    Script.groupByYear books !! j = Some g2 ->
    later_year (Script.group_year g1) (Script.group_year g2).
Proof.
  intros Hyears i j g1 g2 Hij H1 H2.
  set (R := fun a b : option Z => exists ya yb, a = Some ya /\ b = Some yb /\ yb <= ya).
  assert (Hsorted : StronglySorted R (map Script.group_year (Script.groupByYear books))).
  { rewrite groupByYear_years.
    apply (array_sort_ordered _ R is_Some).
    - intros a b [ya ->] [yb ->] Hcmp. simpl in Hcmp. exists ya, yb.
      repeat split. lia.
    - intros a b [ya ->] [yb ->] Hcmp. simpl in Hcmp. exists yb, ya.
      repeat split. lia.
    - intros a b c (ya & yb & -> & -> & Hab) (yb' & yc & [= <-] & -> & Hbc).
      exists ya, yc. repeat split. lia.
    - apply Forall_forall. intros y Hy.
      rewrite Object_keys_Permutation, distinct_elem_of in Hy.
      apply list_elem_of_fmap in Hy as (b & -> & Hb). by apply Hyears. }
  assert (Hnodup : NoDup (map Script.group_year (Script.groupByYear books))).
  { rewrite groupByYear_years_Permutation. apply distinct_NoDup. }
  assert (Hl1 : map Script.group_year (Script.groupByYear books) !! i
                = Some (Script.group_year g1)).
  { by rewrite list_lookup_fmap, H1. }
  assert (Hl2 : map Script.group_year (Script.groupByYear books) !! j
                = Some (Script.group_year g2)).
  { by rewrite list_lookup_fmap, H2. }
  destruct (StronglySorted_lookup R _ i j _ _ Hsorted Hij Hl1 Hl2)
    as (ya & yb & Ha & Hb & Hle).
  exists ya, yb. split; [done|]. split; [done|].
  assert (ya <> yb); [|lia]. intros ->.
  rewrite Ha in Hl1. rewrite Hb in Hl2.
  pose proof (NoDup_lookup _ i j _ Hnodup Hl1 Hl2). lia.
Qed.

(** X2: on books that all have a year, the sections of [groupByYear] come
    in strictly descending order of their years, whatever the order of the
    books. *)
Theorem groupByYear_latest_year_first (books : list Script.bookRecord) :
  (forall b, b ∈ books -> is_Some (Script.year b)) ->
  forall i j g1 g2,
    (i < j)%nat ->
    Script.groupByYear books !! i = Some g1 ->
    Script.groupByYear books !! j = Some g2 ->
    later_year (Script.group_year g1) (Script.group_year g2).
Proof. exact (groupByYear_descending books). Qed.

(** The records of the sample export, the earlier year first in the list:
    the section of 2024 comes before the section of 2021. *)
Lemma groupByYear_latest_year_first_witness :
  later_year (Some 2024) (Some 2021).
Proof.
  refine (groupByYear_latest_year_first (export_saved ++ rev export_finished) _
            0%nat 2%nat
            {| Script.group_year := Some 2024;
               Script.group_books := books_of_year (Some 2024) export_finished |}
            {| Script.group_year := Some 2021;
               Script.group_books := books_of_year (Some 2021) export_saved |} _ _ _).
  - intros b Hb. repeat (apply elem_of_cons in Hb as [-> |Hb]; [by eexists|]).
    by apply elem_of_nil in Hb.
  - lia.
  - vm_compute. reflexivity.
  - vm_compute. reflexivity.
Defined.

Lemma sum_list_add {A} (f g : A -> nat) l :
  sum_list (map (fun x => (f x + g x)%nat) l) = (sum_list (map f l) + sum_list (map g l))%nat.
Proof. induction l as [|x l IH]; simpl; [done|]. rewrite IH. lia. Qed.

Lemma sum_list_indicator_absent (ys : list (option Z)) y :
  y ∉ ys ->
  sum_list (map (fun y' => if bool_decide (y = y') then 1%nat else 0%nat) ys) = 0%nat.
Proof.
  induction ys as [|z l IH]; simpl; [done|]. intros Hy.
  rewrite not_elem_of_cons in Hy. destruct Hy as [Hz Hy].
  case_bool_decide; [done|]. by apply IH.
Qed.

Lemma sum_list_indicator (ys : list (option Z)) y :
  NoDup ys -> y ∈ ys ->
  sum_list (map (fun y' => if bool_decide (y = y') then 1%nat else 0%nat) ys) = 1%nat.
Proof.
  induction 1 as [|x l Hx Hl IH]; intros Hy; [by apply elem_of_nil in Hy|]. simpl.
  case_bool_decide as Hxy.
  - subst x. by rewrite sum_list_indicator_absent.
  - apply elem_of_cons in Hy as [?|Hy]; [done|]. by rewrite IH.
Qed.

Lemma sum_of_years books (ys : list (option Z)) :
  NoDup ys -> (forall b, b ∈ books -> Script.year b ∈ ys) ->
  sum_list (map (fun y => length (books_of_year y books)) ys) = length books.
Proof.
  intros Hnd. induction books as [|b books IH]; intros Hall; simpl.
  { clear Hnd Hall. induction ys as [|y ys IHy]; simpl; [done|]. exact IHy. }
  rewrite <- IH by (intros b' Hb'; apply Hall; by right).
  assert (Hone := sum_list_indicator ys (Script.year b) Hnd (Hall b ltac:(by left))).
  match goal with |- _ = S ?n => change (S n) with (1 + n)%nat end.
  rewrite <- Hone, <- sum_list_add. f_equal. apply map_ext. intros y. simpl.
  by case_bool_decide.
Qed.

(** X3: the statistics of the page agree with its sections: the number of
    years read is the number of sections of [groupByYear], the total is
    the sum of the sizes of the sections, and the count for the current
    year is the size of the section of that year, or zero when no section
    has that year; neither count exceeds the total. *)
Theorem calculateStats_agrees_with_sections (books : list Script.bookRecord) (thisYear : Z) :
  let s := Script.calculateStats books thisYear in
  Script.yearsReading s = length (Script.groupByYear books) /\
  Script.totalBooks s
  = sum_list (map (fun g => length (Script.group_books g)) (Script.groupByYear books)) /\
  (forall g, g ∈ Script.groupByYear books ->
     Script.group_year g = Some thisYear ->
     Script.thisYearBooks s = length (Script.group_books g)) /\
  ((forall g, g ∈ Script.groupByYear books -> Script.group_year g <> Some thisYear) ->
   Script.thisYearBooks s = 0%nat) /\
  (Script.thisYearBooks s <= Script.totalBooks s)%nat /\
  (Script.yearsReading s <= Script.totalBooks s)%nat.
Proof.
  simpl. repeat split.
  - rewrite <- (length_map Script.group_year).
    by rewrite groupByYear_years_Permutation.
  - transitivity (sum_list (map (fun y => length (books_of_year y books))
                              (map Script.group_year (Script.groupByYear books)))).
    + symmetry. apply sum_of_years.
      * rewrite groupByYear_years_Permutation. apply distinct_NoDup.
      * intros b Hb. rewrite groupByYear_years_Permutation. apply distinct_elem_of.
        apply list_elem_of_fmap. by exists b.
    + rewrite map_map. f_equal. apply map_ext_in. intros g Hg.
      apply list_elem_of_In in Hg. by destruct (groupByYear_books books g Hg) as [-> _].
  - intros g Hg Hyear. destruct (groupByYear_books books g Hg) as [-> _].
    by rewrite Hyear.
  - intros Hnone. fold (books_of_year (Some thisYear) books).
    rewrite books_of_year_nil; [done|]. intros Hin.
    apply distinct_elem_of in Hin. rewrite <- groupByYear_years_Permutation in Hin.
    apply list_elem_of_fmap in Hin as (g & Hy & Hg). by apply (Hnone g).
  - apply List.filter_length_le.
  - rewrite <- (length_map Script.year books). apply submseteq_length.
    apply NoDup_submseteq; [apply distinct_NoDup|].
    intros y Hy. by apply distinct_elem_of.
Qed.

Lemma StronglySorted_List_filter {A} (R : A -> A -> Prop) (p : A -> bool) l :
  StronglySorted R l -> StronglySorted R (List.filter p l).
Proof.
  induction 1 as [|x l Hs IH Hx]; simpl; [constructor|].
  destruct (p x); [|done]. constructor; [done|].
  apply Forall_forall. intros y Hy. apply list_elem_of_In, filter_In in Hy as [Hy _].
  eapply Forall_forall in Hx; [exact Hx|]. by apply list_elem_of_In.
Qed.

Section Sections.

Variable Date_new : value -> option Z.
Variable getFullYear : Z -> Z.

(** One list of [processBooks]: its records are titled and dated, and any
    earlier record of the list is not earlier in time than a later one. *)
Lemma bucket_sorted (f : value -> outcome Script.bookRecord) raw recs :
  (forall b r, f b = Ok r ->
     Script.year r = Script.extractYear Date_new getFullYear (Script.date r)) ->
  Script.array_map raw f = Ok recs ->
  let out := Script.array_sort (Script.by_date_desc Date_new)
               (filter (fun b => Script.has_year_and_title b = true) recs) in
  Forall (dated_and_titled Date_new getFullYear) out /\
  StronglySorted (not_earlier Date_new) out.
Proof.
  intros Hf Hmap out. apply array_map_Ok in Hmap as (items & -> & Hrecs).
  assert (Hkept : Forall (dated_and_titled Date_new getFullYear)
                    (filter (fun b => Script.has_year_and_title b = true) recs)).
  { apply Forall_forall. intros r Hr. apply list_elem_of_filter in Hr as [Hkeep Hr].
    apply (has_year_and_title_spec Date_new getFullYear) in Hkeep; [done|].
    apply list_elem_of_lookup in Hr as [i Hi].
    destruct (Forall2_lookup_r _ _ _ _ _ Hrecs Hi) as (b & _ & Hb). by eapply Hf. }
  split.
  - unfold out. by rewrite array_sort_Permutation.
  - apply array_sort_sorted. eapply Forall_impl; [exact Hkept|].
    intros r (_ & _ & t & Ht & _). by exists t.
Qed.

Lemma processBooks_sorted data finished saved :
  Script.processBooks Date_new getFullYear data = Ok (finished, saved) ->
  (Forall (dated_and_titled Date_new getFullYear) finished /\
   StronglySorted (not_earlier Date_new) finished) /\
  (Forall (dated_and_titled Date_new getFullYear) saved /\
   StronglySorted (not_earlier Date_new) saved).
Proof.
  unfold Script.processBooks. intros Hrun.
  destruct (Script.findCategory data "myfinishedbooks") as [finishedRaw|]; [|done].
  destruct (Script.findCategory data "mysavedbooks") as [savedRaw|]; [|done].
  simpl in Hrun.
  destruct (Script.array_map finishedRaw _) as [fin|] eqn:Hfin; [|done].
  simpl in Hrun.
  destruct (Script.array_map savedRaw _) as [sav|] eqn:Hsav; [|done].
  simpl in Hrun. injection Hrun as <- <-. split.
  - exact (bucket_sorted _ _ _ (finished_record_year Date_new getFullYear) Hfin).
  - exact (bucket_sorted _ _ _ (saved_record_year Date_new getFullYear) Hsav).
Qed.

(** The sections of a sorted list of dated records. *)
Lemma sections_of_sorted books g :
  Forall (dated_and_titled Date_new getFullYear) books ->
  StronglySorted (not_earlier Date_new) books ->
  g ∈ Script.groupByYear books ->
  (exists y, Script.group_year g = Some y /\ y <> 0) /\
  (forall b, b ∈ Script.group_books g ->
     b ∈ books /\ Script.year b = Script.group_year g) /\
  (forall i j a b, (i < j)%nat ->
     Script.group_books g !! i = Some a -> Script.group_books g !! j = Some b ->
     not_earlier Date_new a b).
Proof.
  intros Hdated Hsorted Hg.
  destruct (groupByYear_books books g Hg) as [Hbooks Hyear]. split; [|split].
  - apply list_elem_of_fmap in Hyear as (b & -> & Hb).
    eapply Forall_forall in Hdated; [|exact Hb].
    destruct Hdated as (_ & _ & t & _ & -> & Hy). by eexists.
  - intros b Hb. rewrite Hbooks in Hb. by apply books_of_year_elem_of in Hb.
  - intros i j a b Hij Ha Hb. rewrite Hbooks in Ha, Hb.
    eapply StronglySorted_lookup; [|exact Hij|exact Ha|exact Hb].
    by apply StronglySorted_List_filter.
Qed.

(** X4: the page shows the lists of [processBooks] through [groupByYear]:
    every section of the finished and of the saved list has a year other
    than zero, holds records of its list with that year, and lists them
    newest first; the sections themselves come latest year first. *)
Theorem sections_of_processBooks_are_newest_first data finished saved :
  Script.processBooks Date_new getFullYear data = Ok (finished, saved) ->
  forall books, books = finished \/ books = saved ->
    (forall g, g ∈ Script.groupByYear books ->
       (exists y, Script.group_year g = Some y /\ y <> 0) /\
       (forall b, b ∈ Script.group_books g ->
          b ∈ books /\ Script.year b = Script.group_year g) /\
       (forall i j a b, (i < j)%nat ->
          Script.group_books g !! i = Some a -> Script.group_books g !! j = Some b ->
          not_earlier Date_new a b)) /\
    (forall i j g1 g2, (i < j)%nat ->
       Script.groupByYear books !! i = Some g1 ->
       Script.groupByYear books !! j = Some g2 ->
       later_year (Script.group_year g1) (Script.group_year g2)).
Proof.
  intros Hrun books Hbooks.
  apply processBooks_sorted in Hrun as [[Hd1 Hs1] [Hd2 Hs2]].
  assert (Forall (dated_and_titled Date_new getFullYear) books /\
          StronglySorted (not_earlier Date_new) books) as [Hd Hs].
  { by destruct Hbooks as [-> | ->]. }
  split.
  - intros g Hg. by apply sections_of_sorted.
  - apply groupByYear_descending. intros b Hb.
    eapply Forall_forall in Hd; [|exact Hb].
    destruct Hd as (_ & _ & t & _ & -> & _). by eexists.
Qed.

End Sections.

(** ** Edge cases of the ISBN extraction *)

Lemma extractAllISBNs_error editions :
  throws_TypeError_only (Script.extractAllISBNs editions).
Proof.
  destruct editions as [| | | | |eds|]; try by intros e.
  assert (Hclean : forall v, throws_TypeError_only (Script.cleanISBN_call v)).
  { intros v. apply bind_error; [apply String_of_error|intros; apply ret_error]. }
  assert (Htag : forall t e, throws_TypeError_only (Script.tagged_with_isbn t e)).
  { intros t e. apply bind_error; [apply prop_error|]. intros format.
    case_match.
    - apply bind_error; [apply prop_error|intros; apply ret_error].
    - apply bind_error; [apply prop_error|]. intros type. case_match.
      + apply bind_error; [apply prop_error|intros; apply ret_error].
      + apply ret_error. }
  assert (Hnew : forall e l, throws_TypeError_only (Script.push_clean_new e l)).
  { intros e l. apply bind_error; [apply prop_error|]. intros isbn.
    apply bind_error; [apply Hclean|intros; apply ret_error]. }
  unfold Script.extractAllISBNs.
  apply bind_error.
  { apply for_of_error. intros e l. apply bind_error; [apply Htag|].
    intros [|]; [|apply ret_error].
    apply bind_error; [apply prop_error|]. intros isbn.
    apply bind_error; [apply Hclean|intros; apply ret_error]. }
  intros l1. apply bind_error.
  { apply for_of_error. intros e l. apply bind_error; [apply Htag|].
    intros [|]; [apply Hnew|apply ret_error]. }
  intros l2. apply for_of_error. intros e l.
  apply bind_error; [apply prop_error|]. intros isbn.
  case_match; [apply Hnew|apply ret_error].
Qed.

(** X5: [extractAllISBNs] returns the empty list for anything that is not
    an array; for an array it returns a list when every element is an
    edition other than [null] and [undefined] whose ISBN [String]
    converts, and it throws a [TypeError] when some element is not: at
    the read of a property of [null] or [undefined], or at the call of
    [String] on an ISBN whose [toString] is not a function. *)
Theorem extractAllISBNs_throws_exactly_on_bad_editions (editions : value) :
  match editions with
  | VArr eds =>
      if forallb edition_converts eds
      then exists l, Script.extractAllISBNs editions = Ok l
      else Script.extractAllISBNs editions = Throw TypeError
  | _ => Script.extractAllISBNs editions = Ok []
  end.
Proof.
  destruct editions as [| | | | |eds|]; try done.
  destruct (forallb edition_converts eds) eqn:Hconv.
  - eexists. by apply extractAllISBNs_defined.
  - destruct (Script.extractAllISBNs (VArr eds)) as [l|e] eqn:Hrun.
    + apply extractAllISBNs_Ok_inv in Hrun. congruence.
    + f_equal. by apply (extractAllISBNs_error (VArr eds)).
Qed.

Lemma head_add_new acc xs : head (add_new acc xs) = head (acc ++ xs).
Proof.
  destruct acc as [|a acc].
  - destruct xs as [|x xs]; [done|]. rewrite add_new_cons. simpl.
    by destruct (add_new_extends [x] xs) as (new & -> & _).
  - by destruct (add_new_extends (a :: acc) xs) as (new & -> & _).
Qed.

(** X6: on editions that are not [null] or [undefined] and whose ISBNs
    [String] converts, [extractISBN] returns the first ISBN in the order
    of preference: the normalized ISBN of the first eBook edition that
    bears one, else that of the first audioBook edition, else that of the
    first edition with an ISBN, else [null]. *)
Theorem extractISBN_prefers_eBook_then_audioBook (eds : list value) :
  forallb edition_converts eds = true ->
  Script.extractISBN (VArr eds)
  = Ok (head (isbns_tagged "eBook" eds ++ isbns_tagged "audioBook" eds ++ isbns_all eds)).
Proof.
  intros Hnn. unfold Script.extractISBN.
  rewrite (extractAllISBNs_defined _ Hnn). simpl. f_equal.
  rewrite head_add_new. destruct (isbns_tagged "eBook" eds) as [|e es] eqn:He.
  - simpl. destruct (isbns_tagged "audioBook" eds) as [|a A]; [done|].
    rewrite add_new_cons. simpl.
    by destruct (add_new_extends [a] A) as (new & -> & _).
  - simpl. by destruct (add_new_extends (e :: es) (isbns_tagged "audioBook" eds))
      as (new & -> & _).
Qed.

(** An audioBook edition listed before an eBook edition. *)
Lemma extractISBN_witness :
  Script.extractISBN (VArr [edition_of "audioBook" "1"; edition_of "eBook" "978-2"])
  = Ok (Some "9782").
Proof.
  apply (extractISBN_prefers_eBook_then_audioBook
           [edition_of "audioBook" "1"; edition_of "eBook" "978-2"]).
  reflexivity.
Defined.

Lemma sections_sample_witness :
  (forall g, g ∈ Script.groupByYear export_finished ->
     (exists y, Script.group_year g = Some y /\ y <> 0) /\
     (forall b, b ∈ Script.group_books g ->
        b ∈ export_finished /\ Script.year b = Script.group_year g) /\
     (forall i j a b, (i < j)%nat ->
        Script.group_books g !! i = Some a -> Script.group_books g !! j = Some b ->
        not_earlier Sample.Date_new a b)) /\
  (forall i j g1 g2, (i < j)%nat ->
     Script.groupByYear export_finished !! i = Some g1 ->
     Script.groupByYear export_finished !! j = Some g2 ->
     later_year (Script.group_year g1) (Script.group_year g2)).
Proof.
  apply (sections_of_processBooks_are_newest_first
           Sample.Date_new Sample.getFullYear export_data export_finished export_saved).
  - vm_compute. reflexivity.
  - by left.
Defined.

(** ** The ISBNs of a book on the page and in the fetcher *)

Lemma isbns_tagged_all t eds x : x ∈ isbns_tagged t eds -> x ∈ isbns_all eds.
Proof.
  unfold isbns_tagged, isbns_all. rewrite !list_elem_of_fmap.
  intros (e & -> & He). exists e. split; [done|].
  apply list_elem_of_In, filter_In in He as [He Ht].
  apply andb_true_iff in Ht as [_ Ht].
  apply list_elem_of_In, filter_In. by split.
Qed.

(** X7: on editions that are not [null] or [undefined] and whose ISBNs
    [String] converts, the page and the fetcher find the same ISBNs in
    the editions of a book: a string is in the list of [extractAllISBNs]
    exactly when it is in the list that [loadBooks] builds, so the page
    lists no ISBN exactly when the fetcher skips the book. *)
Theorem page_and_fetcher_list_the_same_isbns (eds : list value) :
  forallb edition_converts eds = true ->
  exists page fetcher,
    Script.extractAllISBNs (VArr eds) = Ok page /\
    Fetcher.edition_isbns (VArr eds) = Ok fetcher /\
    (forall x, x ∈ page <-> x ∈ fetcher) /\
    (page = [] <-> fetcher = []).
Proof.
  intros Hok. pose proof (extractAllISBNs_defined eds Hok) as Hpage.
  pose proof (edition_isbns_defined eds Hok) as Hfetcher.
  eexists _, _. split; [exact Hpage|]. split; [exact Hfetcher|].
  destruct (extractAllISBNs_shape _ _ Hpage) as (a & o & Hl & Ha & Ho & _ & _ & _ & Hall).
  assert (Hsame : forall x,
            x ∈ add_new (add_new (isbns_tagged "eBook" eds) (isbns_tagged "audioBook" eds))
                  (isbns_all eds) <-> x ∈ isbns_all eds).
  { intros x. split; [|apply Hall]. rewrite Hl, !elem_of_app.
    intros [Hx|[Hx|Hx]].
    - by eapply isbns_tagged_all.
    - eapply isbns_tagged_all, elem_of_sublist; [exact Hx|exact Ha].
    - eapply elem_of_sublist; [exact Hx|exact Ho]. }
  split; [exact Hsame|]. split; intros Hnil.
  - destruct (isbns_all eds) as [|x r] eqn:Hr; [done|].
    assert (Hx : x ∈ x :: r) by left. apply Hsame in Hx. rewrite Hnil in Hx.
    by apply elem_of_nil in Hx.
  - rewrite Hnil in Hsame |- *.
    destruct (add_new _ []) as [|x r]; [done|].
    assert (Hx : x ∈ x :: r) by left. apply Hsame in Hx. by apply elem_of_nil in Hx.
Qed.

Lemma page_and_fetcher_isbns_witness :
  exists page fetcher,
    Script.extractAllISBNs
      (VArr [edition_of "audioBook" "1-2"; edition_of "eBook" "3"; edition_of "other" "12"])
    = Ok page /\
    Fetcher.edition_isbns
      (VArr [edition_of "audioBook" "1-2"; edition_of "eBook" "3"; edition_of "other" "12"])
    = Ok fetcher /\
    (forall x, x ∈ page <-> x ∈ fetcher) /\
    (page = [] <-> fetcher = []).
Proof.
  apply (page_and_fetcher_list_the_same_isbns
           [edition_of "audioBook" "1-2"; edition_of "eBook" "3"; edition_of "other" "12"]).
  reflexivity.
Defined.

(** ** Normalized ISBNs *)



(** ** More on the cover fetcher *)

Lemma same_value_zero_eq a b : Fetcher.same_value_zero a b = true -> a = b.
Proof.
  destruct a, b; simpl; try done; intros H; f_equal.
  - by destruct b0, b.
  - by apply Z.eqb_eq.
  - by apply String.eqb_eq.
Qed.

Lemma same_value_zero_sym a b :
  Fetcher.same_value_zero a b = Fetcher.same_value_zero b a.
Proof.
  destruct a, b; simpl; try done.
  - by destruct b0, b.
  - apply Z.eqb_sym.
  - apply String.eqb_sym.
Qed.

Lemma remove_duplicates_spec seen books :
  let kept := Fetcher.remove_duplicates seen books in
  sublist kept books /\
  (forall b s, b ∈ kept -> s ∈ seen -> Fetcher.same_value_zero (Fetcher.id b) s = false) /\
  (forall i j b1 b2, (i < j)%nat -> kept !! i = Some b1 -> kept !! j = Some b2 ->
     Fetcher.same_value_zero (Fetcher.id b1) (Fetcher.id b2) = false) /\
  (forall b, b ∈ books ->
     b ∈ kept \/
     (exists s, s ∈ seen /\ Fetcher.same_value_zero (Fetcher.id b) s = true) \/
     (exists b', b' ∈ kept /\ Fetcher.same_value_zero (Fetcher.id b) (Fetcher.id b') = true)).
Proof.
  revert seen. induction books as [|b books IH]; intros seen; simpl.
  { split; [constructor|]. split; [intros c s Hc; by apply elem_of_nil in Hc|].
    split; [done|]. intros c Hc. by apply elem_of_nil in Hc. }
  destruct (existsb (Fetcher.same_value_zero (Fetcher.id b)) seen) eqn:Hseen.
  - destruct (IH seen) as (Hsub & Hfresh & Hdistinct & Hall).
    repeat split; try done.
    + by constructor.
    + intros b' Hb'. apply elem_of_cons in Hb' as [-> |Hb']; [|by apply Hall].
      right. left. apply existsb_exists in Hseen as (s & Hs & Heq).
      exists s. split; [by apply list_elem_of_In|done].
  - destruct (IH (Fetcher.id b :: seen)) as (Hsub & Hfresh & Hdistinct & Hall).
    assert (Hb : forall s, s ∈ seen -> Fetcher.same_value_zero (Fetcher.id b) s = false).
    { intros s Hs. destruct (Fetcher.same_value_zero (Fetcher.id b) s) eqn:Heq; [|done].
      assert (existsb (Fetcher.same_value_zero (Fetcher.id b)) seen = true); [|congruence].
      apply existsb_exists. exists s. split; [by apply list_elem_of_In|done]. }
    repeat split.
    + by constructor.
    + intros b' s Hb' Hs. apply elem_of_cons in Hb' as [-> |Hb']; [by apply Hb|].
      apply Hfresh; [done|by right].
    + intros i j b1 b2 Hij H1 H2. destruct j as [|j]; [lia|]. simpl in H2.
      destruct i as [|i]; simpl in H1.
      * injection H1 as <-. rewrite same_value_zero_sym.
        apply Hfresh; [by eapply list_elem_of_lookup_2|by left].
      * eapply (Hdistinct i j); [lia|done..].
    + intros b' Hb'. apply elem_of_cons in Hb' as [-> |Hb']; [left; by left|].
      destruct (Hall b' Hb') as [Hk|[(s & Hs & Heq)|(b'' & Hb'' & Heq)]].
      * left. by right.
      * apply elem_of_cons in Hs as [-> |Hs].
        -- right. right. exists b. split; [by left|done].
        -- right. left. by exists s.
      * right. right. exists b''. split; [by right|done].
Qed.

Lemma same_value_zero_refl v : primitive v = true -> Fetcher.same_value_zero v v = true.
Proof.
  destruct v; simpl; try done; intros _.
  - by destruct b.
  - apply Z.eqb_refl.
  - apply String.eqb_refl.
Qed.

(** X9: the removal of duplicates in [loadBooks] keeps the books in their
    order, starting with the first one; no two books that it keeps have
    the same id (as the [Set] compares them), so kept books with equal
    primitive ids do not occur; and for every book it keeps the book
    itself or an earlier book with the same id, so the key of every book
    is the key of a kept book. *)
Theorem remove_duplicates_keeps_the_first_of_each_id (books : list Fetcher.book) :
  let kept := Fetcher.remove_duplicates [] books in
  sublist kept books /\
  head kept = head books /\
  (forall i j b1 b2, (i < j)%nat -> kept !! i = Some b1 -> kept !! j = Some b2 ->
     Fetcher.same_value_zero (Fetcher.id b1) (Fetcher.id b2) = false /\
     (primitive (Fetcher.id b1) = true -> Fetcher.id b1 <> Fetcher.id b2)) /\
  (forall b, b ∈ books ->
     exists b', b' ∈ kept /\ key_of b' = key_of b /\
                (b' = b \/ Fetcher.same_value_zero (Fetcher.id b) (Fetcher.id b') = true)).
Proof.
  destruct (remove_duplicates_spec [] books) as (Hsub & _ & Hdistinct & Hall).
  simpl. split; [done|]. split; [by destruct books|]. split.
  - intros i j b1 b2 Hij H1 H2. pose proof (Hdistinct i j b1 b2 Hij H1 H2) as Hne.
    split; [done|]. intros Hprim Heq. rewrite <- Heq in Hne.
    by rewrite same_value_zero_refl in Hne.
  - intros b Hb. destruct (Hall b Hb) as [Hk|[(s & Hs & _)|(b' & Hb' & Heq)]].
    + exists b. split; [done|]. split; [done|by left].
    + by apply elem_of_nil in Hs.
    + exists b'. split; [done|]. split; [|by right]. unfold key_of.
      by rewrite (same_value_zero_eq _ _ Heq).
Qed.

Section MorePipeline.

Variable JSON_parse : string -> option value.
Variable JSON_stringify : value -> string.
Variable path_join : string -> string -> string.
Variable network : nat -> string -> option string.

Abbreviation tryOpenLibrary := (Fetcher.tryOpenLibrary JSON_parse network).
Abbreviation tryGoogleBooks := (Fetcher.tryGoogleBooks JSON_parse network).
Abbreviation tryOpenLibraryTitleSearch := (Fetcher.tryOpenLibraryTitleSearch JSON_parse network).
Abbreviation googleAuthor := (Fetcher.googleAuthor JSON_parse network).
Abbreviation tryGetAuthorOnly := (Fetcher.tryGetAuthorOnly JSON_parse network).
Abbreviation resolveBook := (Fetcher.resolveBook JSON_parse path_join network).
Abbreviation resolveAll := (Fetcher.resolveAll JSON_parse path_join network).
Abbreviation loadBooks := (Fetcher.loadBooks JSON_parse).
Abbreviation loadExisting := (Fetcher.loadExisting JSON_parse).
Abbreviation main := (Fetcher.main JSON_parse JSON_stringify path_join network).
Abbreviation build := (build_map JSON_parse path_join network).
Abbreviation resolution := (resolution JSON_parse path_join network).
Abbreviation resolutions := (resolutions JSON_parse path_join network).

(** *** A run that aborts *)


(** X16: no lookup ends with an exception, whatever the network answers
    and whatever the responses hold: each of them catches what its
    requests, the parse of a response, the reads of its properties and
    the conversions to a string throw. *)
Theorem no_lookup_throws isbn isbns title w e w' :
  tryOpenLibrary isbn w <> (Throw e, w') /\
  tryGoogleBooks isbn w <> (Throw e, w') /\
  tryOpenLibraryTitleSearch title w <> (Throw e, w') /\
  tryGetAuthorOnly isbns title w <> (Throw e, w').
Proof.
  destruct (tryOpenLibrary_returns JSON_parse network isbn w) as (r1 & w1 & H1).
  destruct (tryGoogleBooks_returns JSON_parse network isbn w) as (r2 & w2 & H2).
  destruct (tryOpenLibraryTitleSearch_returns JSON_parse network title w) as (r3 & w3 & H3).
  destruct (tryGetAuthorOnly_returns JSON_parse network isbns title w) as (r4 & w4 & H4).
  repeat split; congruence.
Qed.

(** *** A book whose image is on disk *)

(** X11: a book whose image file exists is not looked up again.  When
    [String] converts the id and the title of the book (the key of the
    book and the line that the loop logs), and the key is not
    [__proto__], then, whatever the network and the prior entry, its
    resolution issues no request and writes no file, and records under
    the key of the book the path of the image with the author of the
    prior entry, or with [null] when the prior map has no author for
    it. *)
Theorem downloaded_cover_is_never_fetched_again existing b coversMap w :
  nullish existing = false ->
  String_throws (Fetcher.id b) = false ->
  String_throws (Fetcher.title b) = false ->
  key_of b <> "__proto__" ->
  is_Some (files w !! image_file path_join b) ->
  resolveBook existing b coversMap w
  = (Ok (<[key_of b := Fetcher.entry (cover_name b)
                         (js_or (prop_opt (prop_opt existing (key_of b)) "author") VNull)]>
           coversMap), w).
Proof.
  intros Hexisting Hid Htitle Hkey Hfile. unfold Fetcher.resolveBook.
  rewrite bind_run. unfold lift at 1. rewrite String_of_converts by done.
  fold (key_of b). fold (image_file path_join b).
  rewrite bind_run. unfold lift at 1. rewrite prop_defined by done.
  rewrite bind_run. unfold existsSync at 1. rewrite bool_decide_eq_true_2 by done.
  rewrite bind_run. unfold Fetcher.console_log, lift.
  rewrite String_of_converts by done. by rewrite set_property_other.
Qed.

(** *** The files of a run *)

Lemma resolution_files existing b w e w' p x :
  resolution existing b w e w' ->
  (files w !! p = Some x -> files w' !! p = Some x) /\
  (files w !! p = None -> files w' !! p = Some x ->
   p = image_file path_join b /\ (1000 < String.length x)%nat).
Proof.
  intros Hb.
  destruct (resolution_effect _ _ _ _ _ _ _ _ Hb)
    as [->|[(c & w1 & [Hfiles _] & Hacc & Hfile & -> & ->)|(a & [Hfiles _] & _ & _)]].
  - split; [done|congruence].
  - simpl. destruct (decide (image_file path_join b = p)) as [<-|Hp].
    + rewrite lookup_insert_eq. split; [congruence|].
      intros _ [= <-]. split; [done|]. by destruct Hacc.
    + rewrite lookup_insert_ne by done. rewrite Hfiles. split; [done|congruence].
  - rewrite Hfiles. split; [done|congruence].
Qed.

Lemma resolutions_keep existing books m w m' w' p x :
  resolutions existing books m w m' w' ->
  files w !! p = Some x -> files w' !! p = Some x.
Proof.
  induction 1 as [m w|b books m w e w1 m' w' Hb Hrest IH]; [done|].
  intros Hp. apply IH. by apply (resolution_files _ _ _ _ _ p x Hb).
Qed.

Lemma resolutions_new existing books m w m' w' p x :
  resolutions existing books m w m' w' ->
  files w !! p = None -> files w' !! p = Some x ->
  (exists b, b ∈ books /\ p = image_file path_join b) /\ (1000 < String.length x)%nat.
Proof.
  induction 1 as [m w|b books m w e w1 m' w' Hb Hrest IH]; [congruence|].
  intros Hnone Hafter. destruct (files w1 !! p) as [y|] eqn:Hmid.
  - assert (y = x) as ->.
    { pose proof (resolutions_keep _ _ _ _ _ _ p y Hrest Hmid). congruence. }
    destruct (resolution_files _ _ _ _ _ p x Hb) as [_ Hnew].
    destruct (Hnew Hnone Hmid) as [-> Hlen]. split; [|done].
    exists b. split; [by left|done].
  - destruct (IH eq_refl Hafter) as [(b' & Hb' & ->) Hlen]. split; [|done].
    exists b'. split; [by right|done].
Qed.

(** X12: a completed run keeps every file it found, [covers.json] apart,
    with its contents (the export and the images of earlier runs among
    them), and a file it has created, [covers.json] apart, is the image
    file of a loaded book and holds more than 1000 bytes. *)
Theorem run_keeps_files_and_adds_only_covers w w' p x :
  main w = (Ok tt, w') ->
  p <> Fetcher.COVERS_MAP_FILE ->
  (files w !! p = Some x -> files w' !! p = Some x) /\
  (files w !! p = None -> files w' !! p = Some x ->
   (1000 < String.length x)%nat /\
   exists books b,
     loadBooks w = (Ok books, w) /\ b ∈ books /\ p = image_file path_join b).
Proof.
  intros Hrun Hp. apply main_inv in Hrun as (m & w1 & Hbuild & ->).
  apply build_inv in Hbuild as (books & existing & Hbooks & _ & Hall).
  apply resolveAll_resolutions in Hall as [Hall _]. unfold persisted_world. simpl.
  rewrite lookup_insert_ne by done. split.
  - by apply (resolutions_keep _ _ _ _ _ _ p x Hall).
  - intros Hnone Hafter.
    destruct (resolutions_new _ _ _ _ _ _ p x Hall Hnone Hafter) as [(b & Hb & ->) Hlen].
    split; [done|]. by exists books, b.
Qed.

(** *** The requests of a run *)

Lemma at_most_requests_refl w : at_most_requests 0 w w.
Proof. by exists []. Qed.

Lemma at_most_requests_trans j k w1 w2 w3 :
  at_most_requests j w1 w2 -> at_most_requests k w2 w3 ->
  at_most_requests (j + k) w1 w3.
Proof.
  intros (u1 & Hr1 & Hl1) (u2 & Hr2 & Hl2). exists (u2 ++ u1). split.
  - by rewrite Hr2, Hr1, app_assoc.
  - rewrite length_app. lia.
Qed.

Lemma at_most_requests_weaken j k w1 w2 :
  (j <= k)%nat -> at_most_requests j w1 w2 -> at_most_requests k w1 w2.
Proof. intros Hjk (u & Hr & Hl). exists u. split; [done|lia]. Qed.

Ltac run_lookup :=
  cbv [mbind M_bind mret M_ret try_catch lift Fetcher.fetchJson Fetcher.fetchUrl
       Fetcher.parse];
  intros Hrun;
  repeat (case_match; simplify_eq/=);
  try done.

Ltac count_requests :=
  first [ by exists []; split; [|simpl; lia]
        | by eexists [_]; split; [|simpl; lia]
        | by eexists [_; _]; split; [|simpl; lia]
        | by eexists [_; _; _]; split; [|simpl; lia] ].

Lemma tryOpenLibrary_requests isbn w r w' :
  tryOpenLibrary isbn w = (r, w') -> at_most_requests 3 w w'.
Proof. unfold Fetcher.tryOpenLibrary. run_lookup; count_requests. Qed.

Lemma tryGoogleBooks_requests isbn w r w' :
  tryGoogleBooks isbn w = (r, w') -> at_most_requests 2 w w'.
Proof. unfold Fetcher.tryGoogleBooks. run_lookup; count_requests. Qed.

Lemma tryOpenLibraryTitleSearch_requests title w r w' :
  tryOpenLibraryTitleSearch title w = (r, w') -> at_most_requests 2 w w'.
Proof. unfold Fetcher.tryOpenLibraryTitleSearch. run_lookup; count_requests. Qed.

Lemma googleAuthor_requests isbn w r w' :
  googleAuthor isbn w = (r, w') -> at_most_requests 1 w w'.
Proof. unfold Fetcher.googleAuthor. run_lookup; count_requests. Qed.

Lemma try_each_requests {A} k (attempt : string -> M (option A)) isbns w r w' :
  (forall isbn w r w', attempt isbn w = (r, w') -> at_most_requests k w w') ->
  Fetcher.try_each attempt isbns w = (r, w') ->
  at_most_requests (k * length isbns) w w'.
Proof.
  intros Hattempt. revert w. induction isbns as [|isbn isbns IH]; intros w; simpl.
  { intros [= <- <-]. rewrite Nat.mul_0_r. apply at_most_requests_refl. }
  rewrite bind_run. destruct (attempt isbn w) as [[[x|]|e] w1] eqn:Hrun.
  - intros [= <- <-]. eapply at_most_requests_weaken; [|by eapply Hattempt]. lia.
  - intros Hrest. eapply at_most_requests_weaken;
      [|eapply at_most_requests_trans; [by eapply Hattempt|by apply IH]]. lia.
  - intros [= <- <-]. eapply at_most_requests_weaken; [|by eapply Hattempt]. lia.
Qed.

Lemma tryGetAuthorOnly_requests isbns title w r w' :
  tryGetAuthorOnly isbns title w = (r, w') ->
  at_most_requests (length isbns + 1) w w'.
Proof.
  unfold Fetcher.tryGetAuthorOnly. rewrite bind_run.
  destruct (Fetcher.try_each googleAuthor isbns w) as [[[a|]|e] w1] eqn:Hfirst.
  all: pose proof (try_each_requests 1 _ _ _ _ _ googleAuthor_requests Hfirst) as Hloop.
  - intros [= <- <-]. eapply at_most_requests_weaken; [|exact Hloop]. lia.
  - intros Hrest. assert (Htitle : at_most_requests 1 w1 w').
    { revert Hrest. generalize w1. clear. intros w0. run_lookup; count_requests. }
    eapply at_most_requests_weaken;
      [|eapply at_most_requests_trans; [exact Hloop|exact Htitle]].
    lia.
  - intros [= <- <-]. eapply at_most_requests_weaken; [|exact Hloop]. lia.
Qed.

Lemma or_else_requests {A} j k (first : option A) (next : M (option A)) w w1 r w2 :
  at_most_requests j w w1 ->
  (forall r w', next w1 = (r, w') -> at_most_requests k w1 w') ->
  match first with Some c => mret (Some c) | None => next end w1 = (r, w2) ->
  at_most_requests (j + k) w w2.
Proof.
  intros Hfirst Hnext Hrun. destruct first as [c|].
  - injection Hrun as <- <-. eapply at_most_requests_weaken; [|exact Hfirst]. lia.
  - eapply at_most_requests_trans; [exact Hfirst|by eapply Hnext].
Qed.

Lemma resolveBook_requests existing b coversMap w r w' :
  resolveBook existing b coversMap w = (r, w') ->
  at_most_requests (request_budget b) w w'.
Proof.
  unfold Fetcher.resolveBook, request_budget. intros Hrun.
  set (n := length (Fetcher.isbns b)).
  assert (Hnone : forall w0, at_most_requests (6 * n + 3) w0 w0).
  { intros w0. eapply at_most_requests_weaken; [|apply at_most_requests_refl]. lia. }
  apply bind_inv in Hrun as [(e & Hkey & _)|(key & w0 & Hkey & Hrun)];
    unfold lift in Hkey; injection Hkey as _ <-; [done|].
  apply bind_inv in Hrun as [(e & Hentry & _)|(existingEntry & w0 & Hentry & Hrun)];
    unfold lift in Hentry; injection Hentry as _ <-; [done|].
  apply bind_inv in Hrun as [(e & Hdl & _)|(downloaded & w0 & Hdl & Hrun)];
    unfold existsSync in Hdl; [done|]. injection Hdl as _ <-.
  apply bind_inv in Hrun as [(e & Hlog & _)|([] & w0 & Hlog & Hrun)];
    apply console_log_inv in Hlog as [-> _]; [done|].
  destruct downloaded; [by injection Hrun as _ <-|].
  case_match; [by injection Hrun as _ <-|].
  apply bind_inv in Hrun as [(e & H1 & ->)|(r1 & w1 & H1 & Hrun)].
  all: pose proof (try_each_requests 3 _ _ _ _ _ tryOpenLibrary_requests H1) as Hw1;
    fold n in Hw1.
  { eapply at_most_requests_weaken; [|exact Hw1]. lia. }
  assert (forall r2 w2,
            match r1 with
            | Some c => mret (Some c)
            | None => Fetcher.try_each tryGoogleBooks (Fetcher.isbns b)
            end w1 = (r2, w2) -> at_most_requests (3 * n + 2 * n) w w2) as Hsecond.
  { intros r2 w2. apply or_else_requests; [done|]. intros r0 w0.
    apply try_each_requests, tryGoogleBooks_requests. }
  apply bind_inv in Hrun as [(e & H2 & ->)|(r2 & w2 & H2 & Hrun)]; apply Hsecond in H2.
  { eapply at_most_requests_weaken; [|exact H2]. lia. }
  assert (forall r3 w3,
            match r2 with
            | Some c => mret (Some c)
            | None => tryOpenLibraryTitleSearch (Fetcher.title b)
            end w2 = (r3, w3) -> at_most_requests (3 * n + 2 * n + 2) w w3) as Hthird.
  { intros r3 w3. apply or_else_requests; [done|]. intros r0 w0.
    apply tryOpenLibraryTitleSearch_requests. }
  apply bind_inv in Hrun as [(e & H3 & ->)|(r3 & w3 & H3 & Hrun)]; apply Hthird in H3.
  { eapply at_most_requests_weaken; [|exact H3]. lia. }
  destruct r3 as [c|].
  - rewrite bind_run in Hrun. unfold writeFileSync at 1 in Hrun. injection Hrun as _ <-.
    destruct H3 as (urls & Hurls & Hlen). exists urls. split; [done|lia].
  - assert (at_most_requests (n + 1) w3 w') as H4.
    { apply bind_inv in Hrun as [(e & H4 & ->)|(a & w4 & H4 & Hrun)];
        [by eapply tryGetAuthorOnly_requests|].
      apply tryGetAuthorOnly_requests in H4.
      assert (w' = w4) as ->; [|done].
      apply bind_inv in Hrun as [(e & Hlog & _)|([] & w5 & Hlog & Hrun)].
      - destruct (truthy a); [by apply console_log_inv in Hlog as [-> _]|done].
      - injection Hrun as _ <-.
        destruct (truthy a); [by apply console_log_inv in Hlog as [-> _]|].
        by injection Hlog as <-. }
    eapply at_most_requests_weaken; [|eapply at_most_requests_trans; [exact H3|exact H4]].
    lia.
Qed.

Lemma resolveAll_requests existing books coversMap w r w' :
  resolveAll existing books coversMap w = (r, w') ->
  at_most_requests (sum_list (request_budget <$> books)) w w'.
Proof.
  revert coversMap w. induction books as [|b books IH]; intros coversMap w; simpl.
  { intros [= <- <-]. apply at_most_requests_refl. }
  rewrite bind_run.
  destruct (resolveBook existing b coversMap w) as [[m|e] w1] eqn:Hb.
  - intros Hrest. eapply at_most_requests_trans; [by eapply resolveBook_requests|by eapply IH].
  - intros [= <- <-]. eapply at_most_requests_weaken; [|by eapply resolveBook_requests]. lia.
Qed.

(** X13: the lookups of a run call [fetchUrl] at most [6 n + 3] times for
    a book with [n] ISBNs: three times per ISBN at Open Library, twice per
    ISBN at Google Books, twice for the title search, and once per ISBN
    and once more for the author; so the calls of a run are bounded by the
    sum over the loaded books, and each book is bounded whatever the
    network answers.  The bound counts the calls that the lookups make,
    which is what [requests] logs; the calls that [fetchUrl] makes of
    itself where a response redirects are not among them. *)
Theorem run_requests_within_budget w books r w' :
  loadBooks w = (Ok books, w) ->
  main w = (r, w') ->
  at_most_requests (sum_list (request_budget <$> books)) w w' /\
  (forall existing b coversMap w0 r0 w1,
     resolveBook existing b coversMap w0 = (r0, w1) ->
     at_most_requests (request_budget b) w0 w1).
Proof.
  intros Hbooks Hrun. split; [|intros; by eapply resolveBook_requests].
  rewrite main_build in Hrun. unfold build_map in Hrun.
  rewrite bind_run, Hbooks, bind_run in Hrun.
  destruct (loadExisting_returns JSON_parse w) as [existing Hexisting].
  rewrite Hexisting in Hrun.
  destruct (resolveAll existing books ∅ w) as [[m|e] w1] eqn:Hall.
  - injection Hrun as <- <-. apply resolveAll_requests in Hall.
    destruct Hall as (urls & Hurls & Hlen). by exists urls.
  - injection Hrun as <- <-. by eapply resolveAll_requests.
Qed.

(** *** The covers map on the page *)

Lemma resolution_paths existing b w e w' :
  resolution existing b w e w' ->
  truthy (prop_opt e "path") = true ->
  prop_opt e "path" = cover_name b /\ is_Some (files w' !! image_file path_join b).
Proof.
  destruct 1 as [Hfile|Hfile Hskip|c w1 Hfile Hskip Hlookup
                |a w1 w2 Hfile Hskip Hlookup Hauthor].
  - done.
  - unfold no_cover_with_author in Hskip.
    apply andb_true_iff in Hskip as [Hskip _]. apply andb_true_iff in Hskip as [_ Hnull].
    by destruct (prop_opt (prop_opt existing (key_of b)) "path").
  - intros _. split; [done|]. simpl. rewrite lookup_insert_eq. by eexists.
  - done.
Qed.

Lemma resolutions_paths existing books m0 w m w' :
  resolutions existing books m0 w m w' ->
  (forall k e, m0 !! k = Some e -> truthy (prop_opt e "path") = true ->
     prop_opt e "path" = VStr ("covers/" +:+ k +:+ ".jpg") /\
     is_Some (files w !! path_join Fetcher.COVERS_DIR (k +:+ ".jpg"))) ->
  forall k e, m !! k = Some e -> truthy (prop_opt e "path") = true ->
    prop_opt e "path" = VStr ("covers/" +:+ k +:+ ".jpg") /\
    is_Some (files w' !! path_join Fetcher.COVERS_DIR (k +:+ ".jpg")).
Proof.
  induction 1 as [m w|b books m w e w1 m' w' Hb Hrest IH]; intros Hm0; [done|].
  apply IH. intros k e'. rewrite lookup_set_property. case_bool_decide as Hk.
  - destruct Hk as [<- _]. intros [= <-]. by eapply resolution_paths.
  - intros He' Hpath.
    destruct (Hm0 k e' He' Hpath) as [Hname [x Hx]]. split; [done|].
    exists x. by apply (resolution_files _ _ _ _ _ _ x Hb).
Qed.

(** X14: the page and the fetcher agree on the covers.  After a completed
    run, when the page looks a record up in the map that the run has
    written ([coversMap[book.bookId] || {}]) and finds a [path], the
    record's id is the key of a loaded book, the path is
    [covers/<id>.jpg], and the image file of that book is on disk: the
    page never shows an image that the fetcher has not stored. *)
Theorem page_shows_only_covers_on_disk w w' :
  main w = (Ok tt, w') ->
  exists m books,
    loadBooks w = (Ok books, w) /\
    files w' !! Fetcher.COVERS_MAP_FILE = Some (JSON_stringify (Fetcher.object_of m)) /\
    forall record info,
      Script.coverInfo (Fetcher.object_of m) record = Ok info ->
      truthy (prop_opt info "path") = true ->
      exists b, b ∈ books /\ key_of b = ToString (Script.bookId record) /\
                prop_opt info "path" = cover_name b /\
                is_Some (files w' !! image_file path_join b).
Proof.
  intros Hrun. apply main_inv in Hrun as (m & w1 & Hbuild & ->).
  apply build_inv in Hbuild as (books & existing & Hbooks & _ & Hall).
  apply resolveAll_resolutions in Hall as [Hall _]. exists m, books.
  split; [done|]. split; [apply lookup_insert_eq|].
  intros record info Hinfo Hpath. unfold Script.coverInfo in Hinfo.
  destruct (String_of (Script.bookId record)) as [k0|] eqn:Hkey; [|done].
  apply String_of_Ok_inv in Hkey as [_ ->]. cbn [mbind outcome_bind] in Hinfo.
  rewrite prop_object_of in Hinfo. simpl in Hinfo. injection Hinfo as <-.
  set (k := ToString (Script.bookId record)) in *.
  destruct (m !! k) as [e|] eqn:He; simpl in Hpath |- *; [|done].
  unfold js_or in Hpath |- *. destruct (truthy e); [|done].
  destruct (proj1 (resolutions_keys _ _ _ _ _ _ _ _ _ k Hall)) as [Hempty|(_ & b & Hb & Hk)].
  { by rewrite He. }
  { rewrite lookup_empty in Hempty. by destruct Hempty. }
  destruct (resolutions_paths _ _ _ _ _ _ Hall) with (k := k) (e := e) as [Hname [x Hx]];
    [intros k0 e0 H0; by rewrite lookup_empty in H0|done|done|].
  exists b. unfold cover_name, image_file. rewrite Hk. repeat split; try done.
  unfold persisted_world. simpl.
  destruct (decide (Fetcher.COVERS_MAP_FILE = path_join Fetcher.COVERS_DIR (k +:+ ".jpg")))
    as [Heq|Hne].
  - rewrite <- Heq, lookup_insert_eq. by eexists.
  - rewrite lookup_insert_ne by done. by exists x.
Qed.

(** *** The keys of the map *)

(** X17: when a run completes on books none of which has the key
    [__proto__], [covers.json] holds the map built from the empty object,
    and its keys are exactly the keys of the books that [loadBooks]
    returned; a key of the prior [covers.json] that is no book's key in
    the current input, whatever its entry, is not in the rewritten
    file. *)
Theorem persisted_keys_are_the_loaded_keys w w' books :
  loadBooks w = (Ok books, w) ->
  (forall b, b ∈ books -> key_of b <> "__proto__") ->
  main w = (Ok tt, w') ->
  exists m,
    files w' !! Fetcher.COVERS_MAP_FILE = Some (JSON_stringify (Fetcher.object_of m)) /\
    (forall k, k ∈ keys (Fetcher.object_of m) <-> exists b, b ∈ books /\ key_of b = k) /\
    (forall existing k,
       loadExisting w = (Ok existing, w) ->
       k ∈ keys existing ->
       (forall b, b ∈ books -> key_of b <> k) ->
       k ∉ keys (Fetcher.object_of m)).
Proof.
  intros Hloaded Hproto Hmain. apply main_inv in Hmain as (m & w1 & Hbuild & ->).
  apply build_inv in Hbuild as (books' & existing & Hbooks & Hexisting & Hall).
  rewrite Hloaded in Hbooks. injection Hbooks as <-.
  apply resolveAll_resolutions in Hall as [Hall _].
  assert (Hkeys : forall k, k ∈ keys (Fetcher.object_of m) <->
                            exists b, b ∈ books /\ key_of b = k).
  { intros k. rewrite keys_object_of, (resolutions_keys _ _ _ _ _ _ _ _ _ k Hall).
    rewrite lookup_empty. split.
    - intros [[? ?]|[_ ?]]; done.
    - intros (b & Hb & <-). right. split; [by apply Hproto|]. by exists b. }
  exists m. split; [apply lookup_insert_eq|]. split; [done|].
  intros existing' k _ _ Habsent Hk. apply Hkeys in Hk as (b & Hb & Hkb).
  by apply (Habsent b).
Qed.

(** *** The title of the title search *)

Lemma chars_string_rev s :
  list_ascii_of_string (string_rev s) = rev (list_ascii_of_string s).
Proof. unfold string_rev. apply list_ascii_of_string_of_list_ascii. Qed.

Lemma chars_trim_start s :
  exists spaces,
    list_ascii_of_string s = spaces ++ list_ascii_of_string (trim_start s) /\
    forall c, head (list_ascii_of_string (trim_start s)) = Some c -> is_space c = false.
Proof.
  induction s as [|c s (spaces & Hs & Hhead)]; simpl.
  { by exists []. }
  destruct (is_space c) eqn:Hc.
  - exists (c :: spaces). split; [by rewrite Hs at 1|done].
  - exists []. split; [done|]. simpl. by intros ? [= <-].
Qed.

Lemma last_rev_head {A} (l : list A) : last (rev l) = head l.
Proof. destruct l as [|x l]; simpl; [done|]. apply last_snoc. Qed.

Lemma chars_trim s :
  let out := list_ascii_of_string (trim s) in
  (exists before after, list_ascii_of_string s = before ++ out ++ after) /\
  (forall c, head out = Some c -> is_space c = false) /\
  (forall c, last out = Some c -> is_space c = false).
Proof.
  unfold trim. simpl. rewrite chars_string_rev.
  destruct (chars_trim_start s) as (before & Hs & Hhead).
  destruct (chars_trim_start (string_rev (trim_start s))) as (after & Hr & Hlast).
  rewrite chars_string_rev in Hr.
  set (a := list_ascii_of_string (trim_start s)) in *.
  set (b := list_ascii_of_string (trim_start (string_rev (trim_start s)))) in *.
  assert (Ha : a = rev b ++ rev after).
  { by rewrite <- rev_app_distr, <- Hr, rev_involutive. }
  split; [|split].
  - exists before, (rev after). by rewrite Hs, Ha.
  - intros c Hc. apply Hhead. rewrite Ha. by destruct (rev b).
  - intros c Hc. apply Hlast. by rewrite last_rev_head in Hc.
Qed.

Lemma chars_split0 sep s :
  exists rest, list_ascii_of_string s = list_ascii_of_string (split0 sep s) ++ rest.
Proof.
  induction s as [|c s [rest Hs]]; simpl; [by exists []|].
  destruct (Ascii.eqb c sep); simpl.
  - by eexists.
  - exists rest. by rewrite Hs at 1.
Qed.

Lemma chars_string_map f s :
  list_ascii_of_string (string_map f s) = f <$> list_ascii_of_string s.
Proof. induction s as [|c s IH]; simpl; [done|]. by rewrite IH. Qed.

(** X15: the title that the title search and the author lookup send, for a
    title of ASCII characters: it holds word characters and white space
    only (what followed the first colon or full stop is dropped, every
    other character has become a space), it neither starts nor ends with
    white space, and it is no longer than the title.  A title that is not
    a string has no search title: the title search ends without a cover and
    without a request. *)
Theorem search_title_is_clean (title : value) :
  match title with
  | VStr t =>
      ascii_only t = true ->
      exists s,
        Fetcher.searchTitle title = Ok s /\
        let out := list_ascii_of_string s in
        (forall c, c ∈ out -> is_word c || is_space c = true) /\
        (forall c, head out = Some c -> is_space c = false) /\
        (forall c, last out = Some c -> is_space c = false) /\
        (String.length s <= String.length t)%nat
  | _ => Fetcher.searchTitle title = Throw TypeError /\
         forall w, tryOpenLibraryTitleSearch title w = (Ok None, w)
  end.
Proof.
  destruct title as [| | | |t| |]; try done.
  intros _. eexists. split; [done|]. simpl.
  set (mapped := string_map _ _).
  destruct (chars_trim mapped) as ((before & after & Hmapped) & Hhead & Hlast).
  assert (Hlen : (length (list_ascii_of_string (trim mapped))
                  <= length (list_ascii_of_string t))%nat).
  { transitivity (length (list_ascii_of_string mapped)).
    - rewrite Hmapped, !length_app. lia.
    - unfold mapped. rewrite chars_string_map, length_fmap.
      destruct (chars_split0 "." (split0 ":" t)) as [r1 H1].
      destruct (chars_split0 ":" t) as [r2 H2].
      rewrite H2, H1, !length_app. lia. }
  repeat split; try done.
  - intros c Hc.
    assert (Hin : c ∈ list_ascii_of_string mapped).
    { rewrite Hmapped, !elem_of_app. by right; left. }
    unfold mapped in Hin. rewrite chars_string_map in Hin.
    apply list_elem_of_fmap in Hin as (c0 & -> & _).
    by destruct (is_word c0 || is_space c0) eqn:Hc0.
  - revert Hlen. generalize (trim mapped) t. clear.
    intros s t. assert (Hl : forall u, length (list_ascii_of_string u) = String.length u).
    { induction u as [|c u IH]; simpl; [done|by rewrite IH]. }
    by rewrite !Hl.
Qed.

End MorePipeline.

Lemma run_keeps_files_sample_witness :
  (1000 < String.length (image_of_size 1500))%nat /\
  exists books b,
    Fetcher.loadBooks Sample.JSON_parse sample_world = (Ok books, sample_world) /\
    b ∈ books /\ "covers/1.jpg" = image_file Sample.path_join b.
Proof.
  destruct (run_keeps_files_and_adds_only_covers
              Sample.JSON_parse Sample.JSON_stringify Sample.path_join sample_network
              sample_world
              (persisted_world Sample.JSON_stringify sample_world_built sample_map)
              "covers/1.jpg" (image_of_size 1500)) as [_ Hnew].
  - vm_compute. reflexivity.
  - done.
  - apply Hnew; vm_compute; reflexivity.
Defined.

Lemma run_requests_sample_witness :
  at_most_requests 18 (world_of export_text None)
    (Fetcher.main Sample.JSON_parse Sample.JSON_stringify Sample.path_join failing_network
       (world_of export_text None)).2.
Proof.
  destruct (run_requests_within_budget
              Sample.JSON_parse Sample.JSON_stringify Sample.path_join failing_network
              (world_of export_text None) sample_books
              (Fetcher.main Sample.JSON_parse Sample.JSON_stringify Sample.path_join
                 failing_network (world_of export_text None)).1
              (Fetcher.main Sample.JSON_parse Sample.JSON_stringify Sample.path_join
                 failing_network (world_of export_text None)).2) as [Hrun _].
  - vm_compute. reflexivity.
  - by destruct (Fetcher.main _ _ _ _ _).
  - exact Hrun.
Defined.

Lemma page_shows_sample_witness :
  exists m books,
    Fetcher.loadBooks Sample.JSON_parse sample_world = (Ok books, sample_world) /\
    files (persisted_world Sample.JSON_stringify sample_world_built sample_map)
      !! Fetcher.COVERS_MAP_FILE
    = Some (Sample.JSON_stringify (Fetcher.object_of m)) /\
    forall record info,
      Script.coverInfo (Fetcher.object_of m) record = Ok info ->
      truthy (prop_opt info "path") = true ->
      exists b, b ∈ books /\ key_of b = ToString (Script.bookId record) /\
                prop_opt info "path" = cover_name b /\
                is_Some (files (persisted_world Sample.JSON_stringify sample_world_built
                                  sample_map)
                         !! image_file Sample.path_join b).
Proof.
  apply (page_shows_only_covers_on_disk
           Sample.JSON_parse Sample.JSON_stringify Sample.path_join sample_network
           sample_world
           (persisted_world Sample.JSON_stringify sample_world_built sample_map)).
  vm_compute. reflexivity.
Defined.


Lemma downloaded_cover_sample_witness :
  Fetcher.resolveBook Sample.JSON_parse Sample.path_join failing_network
    (VObj []) {| Fetcher.id := VStr "1"; Fetcher.title := VStr "Dune";
                 Fetcher.isbns := ["9780441013593"] |} ∅ sample_world_built
  = (Ok {["1" := Fetcher.entry (VStr "covers/1.jpg") VNull]}, sample_world_built).
Proof.
  apply (downloaded_cover_is_never_fetched_again
           Sample.JSON_parse Sample.path_join failing_network
           (VObj []) {| Fetcher.id := VStr "1"; Fetcher.title := VStr "Dune";
                        Fetcher.isbns := ["9780441013593"] |} ∅ sample_world_built).
  - reflexivity.
  - reflexivity.
  - reflexivity.
  - done.
  - exists (image_of_size 1500). vm_compute. reflexivity.
Defined.

(** The keys written by the run on the sample world. *)
Lemma persisted_keys_sample_witness :
  exists m,
    files (persisted_world Sample.JSON_stringify sample_world_built sample_map)
      !! Fetcher.COVERS_MAP_FILE
    = Some (Sample.JSON_stringify (Fetcher.object_of m)) /\
    (forall k, k ∈ keys (Fetcher.object_of m) <->
               exists b, b ∈ sample_books /\ key_of b = k) /\
    (forall existing k,
       Fetcher.loadExisting Sample.JSON_parse sample_world = (Ok existing, sample_world) ->
       k ∈ keys existing ->
       (forall b, b ∈ sample_books -> key_of b <> k) ->
       k ∉ keys (Fetcher.object_of m)).
Proof.
  apply (persisted_keys_are_the_loaded_keys
           Sample.JSON_parse Sample.JSON_stringify Sample.path_join sample_network
           sample_world
           (persisted_world Sample.JSON_stringify sample_world_built sample_map)
           sample_books).
  - vm_compute. reflexivity.
  - intros b Hb. repeat (apply elem_of_cons in Hb as [-> |Hb]; [done|]).
    by apply elem_of_nil in Hb.
  - vm_compute. reflexivity.
Defined.
